(** * scripts/theia-standalone-browser-app.ts

    A shallow embedding of the packaging script: the pipeline [execute] and
    the functions it calls, written in a state-and-exception monad over a
    model of the file system, of the child processes and of the interrupt
    listener, followed by the properties of the script.

    Conventions of the embedding.
    - A JavaScript string is a [string] (a sequence of bytes, its UTF-8
      text); a Buffer is a [string] too.
    - A JavaScript number is a [Z]: the port is an integer (fractions and NaN
      are outside the model).
    - A closure is the data it captures: a [Disposable] is the record of what
      its [dispose] will do.
    - Console output is not part of the model. *)

From Stdlib Require Import ZArith Ascii String List Lia.
From stdpp Require Import base decidable option list gmap strings pretty.

Open Scope string_scope.
Open Scope list_scope.

(** ** JavaScript strings *)

Module Js.

(** Truthiness of a string: every string but the empty one. *)
Definition truthy_string (s : string) : bool :=
  match s with
  | EmptyString => false
  | String _ _ => true
  end.

(** Truthiness of a number: every number but 0 (and NaN, not modelled). *)
Definition truthy_number (n : Z) : bool := negb (Z.eqb n 0).

(** [`${n}`] for an integer [n]. *)
Definition number_to_string (n : Z) : string := pretty n.

(** [s.startsWith(p)] *)
Fixpoint startsWith (s p : string) : bool :=
  match p, s with
  | EmptyString, _ => true
  | String c p', String d s' => if Ascii.eqb c d then startsWith s' p' else false
  | String _ _, EmptyString => false
  end.

(** [s.endsWith(p)]: the last [length p] characters of [s] are [p]. *)
Definition endsWith (s p : string) : bool :=
  if Nat.leb (String.length p) (String.length s)
  then String.eqb (substring (String.length s - String.length p) (String.length p) s) p
  else false.

(** [s.slice(n)] for [0 <= n]. *)
Fixpoint drop_chars (n : nat) (s : string) : string :=
  match n, s with
  | O, _ => s
  | S n', String _ s' => drop_chars n' s'
  | S _, EmptyString => EmptyString
  end.

(** [s.replace(pat, rep)] with a string pattern: the first occurrence of
    [pat] in [s], if any, is replaced by [rep]. *)
Fixpoint replace (pat rep s : string) : string :=
  if startsWith s pat then rep +:+ drop_chars (String.length pat) s
  else match s with
       | EmptyString => EmptyString
       | String c s' => String c (replace pat rep s')
       end.

(** [s.split(sep)] for a separator of one character: the pieces of [s]
    between the separators; there is always at least one piece, and a piece
    may be empty. *)
Fixpoint split (sep : ascii) (s : string) : list string :=
  match s with
  | EmptyString => [EmptyString]
  | String c s' =>
      if Ascii.eqb c sep then EmptyString :: split sep s'
      else match split sep s' with
           | piece :: pieces => String c piece :: pieces
           | [] => [String c EmptyString]
           end
  end.

(** [[...new Set(l)]]: the elements of [l] in the order of their first
    occurrence, each one once. *)
Definition set_add (seen : list string) (x : string) : list string :=
  if bool_decide (x ∈ seen) then seen else seen ++ [x].

Definition unique (l : list string) : list string := fold_left set_add l [].

End Js.

(** ** JSON values *)

(** What [JSON.parse] yields. An object is a finite map from its keys to
    their values; numbers are integers. *)
#[warnings="-register-all"]
Inductive json : Type :=
| JNull
| JBool (b : bool)
| JNum (n : Z)
| JStr (s : string)
| JArr (items : list json)
| JObj (props : gmap string json).

(** A JavaScript value that may be [undefined]. *)
Definition value : Type := option json.
Definition undefined : value := None.
Definition str (s : string) : value := Some (JStr s).

Module Json.

(** Truthiness of a value. *)
Definition truthy (v : value) : bool :=
  match v with
  | None | Some JNull => false
  | Some (JBool b) => b
  | Some (JNum n) => Js.truthy_number n
  | Some (JStr s) => Js.truthy_string s
  | Some (JArr _) | Some (JObj _) => true
  end.

(** The characters of a string as one-character strings. *)
Fixpoint chars (s : string) : list json :=
  match s with
  | EmptyString => []
  | String c s' => JStr (String c EmptyString) :: chars s'
  end.

Definition indexed (l : list json) : gmap string json :=
  list_to_map (imap (fun i x => (pretty i, x)) l).

(** The own enumerable properties of a value, which is what an object spread
    [{...v}] copies: the properties of an object, the elements of an array
    and the characters of a string under their indices, nothing for the
    rest. *)
Definition own_props (v : value) : gmap string json :=
  match v with
  | Some (JObj props) => props
  | Some (JArr items) => indexed items
  | Some (JStr s) => indexed (chars s)
  | _ => ∅
  end.

(** [{...a, ...b}]: the properties of both, those of [b] winning. *)
Definition spread2 (a b : value) : gmap string json := own_props b ∪ own_props a.

End Json.

(** ** Errors and the outside world *)

(** What the script can throw. *)
Inductive Exn : Type :=
| Error (message : string)                    (* [new Error(message)] *)
| TypeError (message : string)                (* raised by the runtime *)
| SystemError (code : string) (path : string) (* a failed file-system call *)
| Foreign (what : string).                    (* an error made by a library *)

(** What [spawnSync] returns: the exit status, the signal that ended the
    child, and the error of a launch that failed. *)
Record SpawnSyncReturns : Type := {
  status : option Z;
  signal : option string;
  error : option Exn
}.

(** How the promise of [waitPort({ port })] settles. The call passes no
    timeout, and then the utility fulfils the promise once the port accepts
    a connection and rejects it when the wait fails. *)
Inductive WaitResult : Type :=
| PortOpen
| WaitFailed (e : Exn).

(** The content of a file: its bytes; a file that holds JSON text is kept as
    the document the text parses to. *)
Inductive FileData : Type :=
| Bytes (content : string)
| JsonText (doc : json).

(** The part of the world the script does not decide. *)
Record Env : Type := {
  (** [path.resolve(p)] in the working directory of the script *)
  path_resolve : string -> string;
  (** [glob.sync(pattern, { ignore, realpath: true })] *)
  glob_sync : string -> list string -> list string;
  (** what [spawnSync(command, args, { cwd })] returns *)
  spawnSync_result : string -> list value -> string -> SpawnSyncReturns;
  (** how [waitPort({ port })] settles *)
  waitPort_result : Z -> WaitResult;
  (** how many SIGINT signals are handled at the n-th suspension of the
      script *)
  sigints : nat -> nat
}.

(** The options of the command line. *)
Record Args : Type := {
  app : string;
  output : string;
  includeExtensions : list string;
  excludeExtensions : list string;
  verdaccioConfig : string;
  verdaccioPort : Z;
  verdaccioStorage : string;
  debug : bool
}.

Definition default_args : Args := {|
  app := "applications/browser";
  output := "../target/";
  includeExtensions := ["theia-extensions/*"];
  excludeExtensions := [];
  verdaccioConfig := "configs/verdaccio.config.yaml";
  verdaccioPort := 4873;
  verdaccioStorage := "verdaccio-storage";
  debug := false
|}.

(** ** The file system *)

(** A finite map from paths to file contents. A directory is there through
    the files below it. Paths are compared as strings. Reading or copying a
    path that is not there fails; writing and removing always succeed
    (permissions and busy files are not modelled). *)
Module Fs.

Definition as_dir (p : string) : string :=
  if Js.endsWith p "/" then p else p +:+ "/".

(** [k] is [p] or lies below the directory [p]. *)
Definition within (p k : string) : bool :=
  String.eqb k p || Js.startsWith k (as_dir p).

Definition exists_ (p : string) (files : gmap string FileData) : bool :=
  bool_decide (filter (fun kv => within p kv.1 = true) files ≠ ∅).

(** [fs.removeSync(p)]: the file, or the directory and all below it; nothing
    when there is none. *)
Definition remove (p : string) (files : gmap string FileData) : gmap string FileData :=
  filter (fun kv => within p kv.1 = false) files.

(** The files below [src], moved below [dst]. *)
Definition rebase (src dst : string) (kv : string * FileData) : option (string * FileData) :=
  if Js.startsWith kv.1 (as_dir src)
  then Some (as_dir dst +:+ Js.drop_chars (String.length (as_dir src)) kv.1, kv.2)
  else None.

Definition copy_tree (src dst : string) (files : gmap string FileData) : gmap string FileData :=
  list_to_map (omap (rebase src dst) (map_to_list files)) ∪ files.

End Fs.

(** ** Disposables, events, states *)

(** What the [cleanup] closure of [createNpmrcFile] does. *)
Inductive NpmrcCleanup : Type :=
| RestoreContent (originalContent : FileData)
| RemoveFile.

(** The two objects with a [dispose] method the script makes, each with
    what its closure captures. *)
Inductive Disposable : Type :=
| VerdaccioDisposable (verdaccioHandle : nat) (verdaccioWorkingDir : string)
| NpmrcDisposable (cleanup : NpmrcCleanup).

(** The calls the script makes, in the order it makes them. The calls inside
    a [dispose] are covered by its [Dispose] event. *)
Inductive Event : Type :=
| Spawn (command : string) (args : list string) (stdio : option string)
        (env_overrides : list (string * string))
| WaitPort (port : Z)
| SpawnSync (command : string) (args : list value) (stdio : option string) (cwd : string)
| ExistsSync (path : string)
| ReadFileSync (path : string)
| WriteFileSync (path : string) (data : FileData)
| RemoveSync (path : string)
| CopySync (src dst : string)
| CopyFileSync (src dst : string)
| ReadJSONSync (path : string)
| WriteJSONSync (path : string) (doc : json)
| Require (path : string)
| Sigint
| Dispose (d : Disposable).

Record State : Type := {
  files : gmap string FileData;       (* the file system *)
  running : list nat;                 (* the child processes still running *)
  spawned : nat;                      (* how many were started *)
  disposables : list Disposable;      (* the array of [execute] *)
  trace : list Event;                 (* the calls so far *)
  turn : nat                          (* the suspensions so far *)
}.

Definition initial (fs : gmap string FileData) : State := {|
  files := fs; running := []; spawned := 0; disposables := []; trace := []; turn := 0
|}.

(** ** The monad: state and exceptions *)

Inductive Outcome (A : Type) : Type :=
| Return (a : A)
| Throw (e : Exn).
Arguments Return {A} a.
Arguments Throw {A} e.

Definition M (A : Type) : Type := State -> Outcome A * State.

Definition ret {A} (a : A) : M A := fun s => (Return a, s).

Definition throw {A} (e : Exn) : M A := fun s => (Throw e, s).

Definition bind {A B} (m : M A) (k : A -> M B) : M B := fun s =>
  match m s with
  | (Return a, s') => k a s'
  | (Throw e, s') => (Throw e, s')
  end.

Notation "'let*' x ':=' m 'in' k" := (bind m (fun x => k))
  (at level 10, x name, m at level 100, k at level 200).
Notation "m ;;; k" := (bind m (fun _ => k))
  (at level 100, k at level 200, right associativity).

(** [try { body } finally { fin }] *)
Definition try_finally {A} (body : M A) (fin : M unit) : M A := fun s =>
  match body s with
  | (r, s') =>
      match fin s' with
      | (Return _, s'') => (r, s'')
      | (Throw e, s'') => (Throw e, s'')
      end
  end.

(** [for (const x of l) { body(x) }] *)
Fixpoint for_of {A} (l : list A) (body : A -> M unit) : M unit :=
  match l with
  | [] => ret tt
  | x :: l' => body x ;;; for_of l' body
  end.

Definition log (ev : Event) : M unit := fun s =>
  (Return tt, {| files := files s; running := running s; spawned := spawned s;
                 disposables := disposables s; trace := trace s ++ [ev];
                 turn := turn s |}).

Definition get_files : M (gmap string FileData) := fun s => (Return (files s), s).

Definition set_files (fs : gmap string FileData) : M unit := fun s =>
  (Return tt, {| files := fs; running := running s; spawned := spawned s;
                 disposables := disposables s; trace := trace s; turn := turn s |}).

Definition get_disposables : M (list Disposable) := fun s => (Return (disposables s), s).

Definition set_disposables (ds : list Disposable) : M unit := fun s =>
  (Return tt, {| files := files s; running := running s; spawned := spawned s;
                 disposables := ds; trace := trace s; turn := turn s |}).

(** [disposables.push(d)] *)
Definition push (d : Disposable) : M unit := fun s =>
  (Return tt, {| files := files s; running := running s; spawned := spawned s;
                 disposables := disposables s ++ [d]; trace := trace s;
                 turn := turn s |}).

(** A new child process; the result is its handle. *)
Definition start_child : M nat := fun s =>
  (Return (spawned s),
   {| files := files s; running := running s ++ [spawned s]; spawned := S (spawned s);
      disposables := disposables s; trace := trace s; turn := turn s |}).

(** [child.kill()] *)
Definition kill (child : nat) : M unit := fun s =>
  (Return tt, {| files := files s; running := filter (fun c => c ≠ child) (running s);
                 spawned := spawned s; disposables := disposables s; trace := trace s;
                 turn := turn s |}).

Definition next_turn (s : State) : State :=
  {| files := files s; running := running s; spawned := spawned s;
     disposables := disposables s; trace := trace s; turn := S (turn s) |}.

Definition dquote : string := String (ascii_of_nat 34) EmptyString.
Definition newline : string := String (ascii_of_nat 10) EmptyString.

(** ** The script *)

Section Script.

Variable env : Env.

(** *** The calls to the libraries *)

(** [spawn(command, args, { stdio, env: { ...process.env, ...overrides } })] *)
Definition spawn (command : string) (args : list string) (stdio : option string)
    (overrides : list (string * string)) : M nat :=
  log (Spawn command args stdio overrides) ;;; start_child.

(** [waitPort({ port })] *)
Definition waitPort (port : Z) : M unit :=
  log (WaitPort port) ;;;
  match waitPort_result env port with
  | PortOpen => ret tt
  | WaitFailed e => throw e
  end.

(** [spawnSync(command, args, { stdio, cwd })] *)
Definition spawnSync (command : string) (args : list value) (stdio : option string)
    (cwd : string) : M SpawnSyncReturns :=
  log (SpawnSync command args stdio cwd) ;;;
  ret (spawnSync_result env command args cwd).

(** [fs.existsSync(path)] *)
Definition existsSync (path : string) : M bool :=
  log (ExistsSync path) ;;;
  let* fs := get_files in ret (Fs.exists_ path fs).

(** [fs.readFileSync(path)] *)
Definition readFileSync (path : string) : M FileData :=
  log (ReadFileSync path) ;;;
  let* fs := get_files in
  match fs !! path with
  | Some data => ret data
  | None => throw (SystemError (if Fs.exists_ path fs then "EISDIR" else "ENOENT") path)
  end.

(** [fs.writeFileSync(path, data)] *)
Definition writeFileSync (path : string) (data : FileData) : M unit :=
  log (WriteFileSync path data) ;;;
  let* fs := get_files in set_files (<[path := data]> fs).

(** [fs.removeSync(path)] *)
Definition removeSync (path : string) : M unit :=
  log (RemoveSync path) ;;;
  let* fs := get_files in set_files (Fs.remove path fs).

(** [fs.copySync(src, dst, { recursive: true, overwrite: true })] *)
Definition copySync (src dst : string) : M unit :=
  log (CopySync src dst) ;;;
  let* fs := get_files in
  match fs !! src with
  | Some data => set_files (<[dst := data]> fs)
  | None =>
      if Fs.exists_ src fs then set_files (Fs.copy_tree src dst fs)
      else throw (SystemError "ENOENT" src)
  end.

(** [fs.copyFileSync(src, dst)] *)
Definition copyFileSync (src dst : string) : M unit :=
  log (CopyFileSync src dst) ;;;
  let* fs := get_files in
  match fs !! src with
  | Some data => set_files (<[dst := data]> fs)
  | None => throw (SystemError "ENOENT" src)
  end.

(** The document in the file at [path]. *)
Definition parse_file (path : string) : M json :=
  let* fs := get_files in
  match fs !! path with
  | Some (JsonText doc) => ret doc
  | Some (Bytes _) => throw (Error "SyntaxError")
  | None => throw (SystemError "ENOENT" path)
  end.

(** [fs.readJSONSync(path)] *)
Definition readJSONSync (path : string) : M json :=
  log (ReadJSONSync path) ;;; parse_file path.

(** [fs.writeJSONSync(path, doc)] *)
Definition writeJSONSync (path : string) (doc : json) : M unit :=
  log (WriteJSONSync path doc) ;;;
  let* fs := get_files in set_files (<[path := JsonText doc]> fs).

(** [require(path)] of a JSON file *)
Definition require (path : string) : M json :=
  log (Require path) ;;; parse_file path.

(** [o.key]: a TypeError on [null]; [undefined] where there is no such
    property. *)
Definition get_prop (o : json) (key : string) : M value :=
  match o with
  | JNull => throw (TypeError "Cannot read properties of null")
  | JObj props => ret (props !! key)
  | _ => ret undefined
  end.

(** [o.key = v], as far as the JSON text of [o] shows it: an object gets the
    property, an array keeps its elements, and the rest cannot take a
    property (a TypeError in strict mode). *)
Definition set_prop (o : json) (key : string) (v : json) : M json :=
  match o with
  | JObj props => ret (JObj (<[key := v]> props))
  | JArr items => ret (JArr items)
  | JNull => throw (TypeError "Cannot set properties of null")
  | _ => throw (TypeError "Cannot create property")
  end.

(** *** Disposal and the interrupt listener *)

(** [disposable.dispose()] for each of the two closures: [kill] and
    [fs.removeSync] for the registry, [fs.writeFileSync] or [fs.removeSync]
    for the credential file. *)
Definition dispose (d : Disposable) : M unit :=
  match d with
  | VerdaccioDisposable verdaccioHandle verdaccioWorkingDir =>
      kill verdaccioHandle ;;;
      let* fs := get_files in set_files (Fs.remove verdaccioWorkingDir fs)
  | NpmrcDisposable (RestoreContent originalContent) =>
      let* fs := get_files in set_files (<[".npmrc" := originalContent]> fs)
  | NpmrcDisposable RemoveFile =>
      let* fs := get_files in set_files (Fs.remove ".npmrc" fs)
  end.

Definition invoke (d : Disposable) : M unit := log (Dispose d) ;;; dispose d.

(** [const cleanup = () => disposables.forEach(disposable => disposable.dispose())] *)
Definition cleanup : M unit :=
  let* ds := get_disposables in for_of ds invoke.

(** The listener of [process.addListener('SIGINT', () => cleanup())]. *)
Definition on_sigint : M unit := log Sigint ;;; cleanup.

Definition handle_signals (n : nat) (s : State) : State :=
  Nat.iter n (fun s' => snd (on_sigint s')) s.

(** The script is suspended: the signals that have arrived are handled. *)
Definition suspend (s : State) : State :=
  handle_signals (sigints env (turn s)) (next_turn s).

(** [await m]: run [m], suspend, and go on with the result of [m]. *)
Definition await {A} (m : M A) : M A := fun s =>
  match m s with
  | (r, s') => (r, suspend s')
  end.

(** *** The functions of the script *)

Definition executeProcess (command : string) (args : list value) (target : string)
    (debug : bool) : M unit :=
  let stdio := if debug then Some "inherit" else None in
  let* process := await (spawnSync command args stdio target) in
  if match signal process with Some name => Js.truthy_string name | None => false end
  then throw (Error "Aborted.")
  else match error process with
       | Some e => throw e
       | None => ret tt
       end.

Definition createNpmrcFile (registry : string) : M Disposable :=
  let path := ".npmrc" in
  let* present := existsSync path in
  let* cleanup := (if present : bool
                   then let* originalContent := readFileSync path in
                        ret (RestoreContent originalContent)
                   else ret RemoveFile) in
  writeFileSync path
    (Bytes (Js.replace "http:" "" registry +:+ "/:_authToken=" +:+ dquote +:+ "fooBar"
            +:+ dquote +:+ newline)) ;;;
  ret (NpmrcDisposable cleanup).

Definition verdaccio_args (config : string) (port : Z) : list string :=
  let configCmd := if Js.truthy_string config then "--config " +:+ config else "" in
  let portCmd :=
    if Js.truthy_number port then "--listen " +:+ Js.number_to_string port else "" in
  Js.split " " (configCmd +:+ " " +:+ portCmd).

Definition startVerdaccio (config : string) (port : Z) (storage : string) (debug : bool)
    : M Disposable :=
  let verdaccioWorkingDir := path_resolve env storage in
  let args := verdaccio_args config port in
  let stdio := if debug then Some "inherit" else None in
  let* verdaccioHandle := spawn "verdaccio" args stdio [("VERDACCIO_STORAGE_PATH", verdaccioWorkingDir)] in
  await (waitPort port) ;;;
  ret (VerdaccioDisposable verdaccioHandle verdaccioWorkingDir).

(** The paths the publishing loop goes through. *)
Definition uniquePaths (includeExtensionPaths ignoreExtensionPaths : list string)
    : list string :=
  let paths :=
    flat_map (fun includeExtensionPath => glob_sync env includeExtensionPath ignoreExtensionPaths)
      includeExtensionPaths in
  Js.unique paths.

Definition publish (registry : string) (debug : bool) (extensionPath : string) : M unit :=
  let* manifest := require (extensionPath +:+ "/package.json") in
  let* version := get_prop manifest "version" in
  await (executeProcess "yarn"
           [str "publish"; str "--registry"; str registry; str "--new-version"; version]
           extensionPath debug).

Definition publishExtensions (registry : string)
    (includeExtensionPaths ignoreExtensionPaths : list string) (debug : bool) : M unit :=
  for_of (uniquePaths includeExtensionPaths ignoreExtensionPaths) (publish registry debug).

Definition copyApp (app target : string) : M unit :=
  await (removeSync target) ;;;
  await (copySync app target) ;;;
  await (copyFileSync "yarn.lock" (target +:+ "yarn.lock")).

Definition adaptApp (target : string) : M unit :=
  let* rootPackageJson := await (readJSONSync "package.json") in
  let* resolutions := get_prop rootPackageJson "resolutions" in
  if Json.truthy resolutions
  then let* appPackageJson := await (readJSONSync (target +:+ "package.json")) in
       let* appResolutions := get_prop appPackageJson "resolutions" in
       let* merged := set_prop appPackageJson "resolutions"
                   (JObj (Json.spread2 appResolutions resolutions)) in
       await (writeJSONSync (target +:+ "package.json") merged)
  else ret tt.

Definition buildApp (target registry : string) (debug : bool) : M unit :=
  await (executeProcess "yarn"
           [str "install"; str "--registry"; str registry; str "--network-timeout";
            str "100000"]
           target debug).

Definition minifyApp (target : string) (debug : bool) : M unit :=
  await (executeProcess "yarn" [str "autoclean"; str "--init"] target debug) ;;;
  await (executeProcess "yarn" [str "autoclean"; str "--force"] target debug).

Definition target_of (output : string) : string :=
  if Js.endsWith output "/" then output else output +:+ "/".

Definition registry_of (port : Z) : string :=
  "http://localhost:" +:+ Js.number_to_string port.

(** The steps inside the [try] block. *)
Definition steps (args : Args) : M unit :=
  let target := target_of (output args) in
  let registry := registry_of (verdaccioPort args) in
  let* d := await (startVerdaccio (verdaccioConfig args) (verdaccioPort args)
                (verdaccioStorage args) (debug args)) in
  push d ;;;
  let* d' := await (createNpmrcFile registry) in
  push d' ;;;
  await (publishExtensions registry (includeExtensions args) (excludeExtensions args)
           (debug args)) ;;;
  await (copyApp (app args) target) ;;;
  await (adaptApp target) ;;;
  await (buildApp target registry (debug args)) ;;;
  await (minifyApp target (debug args)).

Definition execute (args : Args) : M unit :=
  set_disposables [] ;;;
  try_finally (steps args) cleanup.

(** The whole script: [execute()] is called and not awaited; when it is
    over the signals that arrived meanwhile are handled. *)
Definition script (args : Args) (fs : gmap string FileData) : Outcome unit * State :=
  match execute args (initial fs) with
  | (r, s) => (r, suspend s)
  end.

End Script.

(** * The vocabulary of the properties *)

(** The steps after the two registrations. *)
Definition later_steps (env : Env) (args : Args) : M unit :=
  let target := target_of (output args) in
  let registry := registry_of (verdaccioPort args) in
  await env (publishExtensions env registry (includeExtensions args)
               (excludeExtensions args) (debug args)) ;;;
  await env (copyApp env (app args) target) ;;;
  await env (adaptApp env target) ;;;
  await env (buildApp env target registry (debug args)) ;;;
  await env (minifyApp env target (debug args)).

(** The steps after [startVerdaccio], whose handle is [d]. *)
Definition after_verdaccio (env : Env) (args : Args) (d : Disposable) : M unit :=
  push d ;;;
  let* d' := await env (createNpmrcFile (registry_of (verdaccioPort args))) in
  push d' ;;;
  later_steps env args.

Definition stdio_of (debug : bool) : option string :=
  if debug then Some "inherit" else None.

(** The events of the interrupt listener and of the disposals. *)
Definition is_cleanup (ev : Event) : Prop :=
  match ev with
  | Sigint | Dispose _ => True
  | _ => False
  end.

Definition is_write (ev : Event) : Prop :=
  match ev with
  | WriteJSONSync _ _ | WriteFileSync _ _ => True
  | _ => False
  end.


(** The working directories of the [spawnSync] calls, in order. *)
Definition spawnSync_dirs (tr : list Event) : list string :=
  omap (fun ev => match ev with SpawnSync _ _ _ cwd => Some cwd | _ => None end) tr.

(** The handles whose [dispose] was called, in the order of the calls. *)
Definition disposed (tr : list Event) : list Disposable :=
  omap (fun ev => match ev with Dispose d => Some d | _ => None end) tr.

(** The working directories of the [yarn publish] calls, in order. *)
Definition published (tr : list Event) : list string :=
  omap (fun ev =>
          match ev with
          | SpawnSync _ (Some (JStr verb) :: _) _ cwd =>
              if String.eqb verb "publish" then Some cwd else None
          | _ => None
          end) tr.

(** The calls the steps of [execute] can make, for given options. *)
Definition step_event (env : Env) (args : Args) (ev : Event) : Prop :=
  let target := target_of (output args) in
  let registry := registry_of (verdaccioPort args) in
  match ev with
  | Spawn command argv stdio overrides =>
      command = "verdaccio" /\
      argv = verdaccio_args (verdaccioConfig args) (verdaccioPort args) /\
      stdio = stdio_of (debug args) /\
      overrides = [("VERDACCIO_STORAGE_PATH", path_resolve env (verdaccioStorage args))]
  | WaitPort port => port = verdaccioPort args
  | ExistsSync path | ReadFileSync path | WriteFileSync path _ => path = ".npmrc"
  | Require path =>
      exists extensionPath,
        extensionPath ∈ uniquePaths env (includeExtensions args) (excludeExtensions args) /\
        path = extensionPath +:+ "/package.json"
  | SpawnSync command argv stdio cwd =>
      command = "yarn" /\ stdio = stdio_of (debug args) /\
      ((exists version,
          argv = [str "publish"; str "--registry"; str registry; str "--new-version";
                  version] /\
          cwd ∈ uniquePaths env (includeExtensions args) (excludeExtensions args)) \/
       (cwd = target /\
        (argv = [str "install"; str "--registry"; str registry; str "--network-timeout";
                 str "100000"] \/
         argv = [str "autoclean"; str "--init"] \/
         argv = [str "autoclean"; str "--force"])))
  | RemoveSync path => path = target
  | CopySync src dst => src = app args /\ dst = target
  | CopyFileSync src dst => src = "yarn.lock" /\ dst = target +:+ "yarn.lock"
  | ReadJSONSync path => path = "package.json" \/ path = target +:+ "package.json"
  | WriteJSONSync path _ => path = target +:+ "package.json"
  | Sigint | Dispose _ => False
  end.

Definition step_or_cleanup (env : Env) (args : Args) (ev : Event) : Prop :=
  step_event env args ev \/ is_cleanup ev.



(** What the array of [execute] can hold: nothing, the handle of
    [startVerdaccio], or that handle and then the one of [createNpmrcFile]. *)
Definition registered (env : Env) (args : Args) (ds : list Disposable) : Prop :=
  let dir := path_resolve env (verdaccioStorage args) in
  ds = [] \/
  (exists h, ds = [VerdaccioDisposable h dir]) \/
  (exists h c, ds = [VerdaccioDisposable h dir; NpmrcDisposable c]).

(** A property of the calls that a computation adds: it holds of no call at
    all, and of two runs of calls put one after the other. *)
Class Closed (Phi : list Event -> Prop) : Prop := {
  closed_nil : Phi [];
  closed_app : forall evs1 evs2, Phi evs1 -> Phi evs2 -> Phi (evs1 ++ evs2)
}.

(** [s'] is [s] after some more calls, which satisfy [Phi], and with the
    same array of disposables. *)
Definition ext (Phi : list Event -> Prop) (s s' : State) : Prop :=
  disposables s' = disposables s /\
  exists evs, trace s' = trace s ++ evs /\ Phi evs.

(** [s'] is [s] after the registration of [ds] and some calls that satisfy
    [Phi]. *)
Definition grow (Phi : list Event -> Prop) (ds : list Disposable) (s s' : State) : Prop :=
  disposables s' = disposables s ++ ds /\
  exists evs, trace s' = trace s ++ evs /\ Phi evs.

(** Started with an array that satisfies [P], [m] makes calls that satisfy
    [Phi] and leaves the array alone. *)
Definition acts {A} (P : list Disposable -> Prop) (Phi : list Event -> Prop) (m : M A)
    : Prop :=
  forall s, P (disposables s) -> ext Phi s (m s).2.

Definition anything (ds : list Disposable) : Prop := True.

(** At most one handle of the registry, and after it at most one of the
    credential file. *)
Definition tidy (ds : list Disposable) : Prop :=
  ds = [] \/
  (exists h dir, ds = [VerdaccioDisposable h dir]) \/
  (exists h dir c, ds = [VerdaccioDisposable h dir; NpmrcDisposable c]).

(** Calls of steps and, for each interrupt, the disposals of its listener. *)
Inductive blocks : list Event -> Prop :=
| blocks_nil : blocks []
| blocks_step evs ev : blocks evs -> ~ is_cleanup ev -> blocks (evs ++ [ev])
| blocks_sigint evs ds : blocks evs -> tidy ds -> blocks (evs ++ Sigint :: map Dispose ds).





(** No signal is ever handled. *)
Definition quiet (env : Env) : Prop := forall n, sigints env n = 0.

(** The [signal] field of what [spawnSync] returned is truthy: the child was
    ended by a signal. *)
Definition by_signal (r : SpawnSyncReturns) : bool :=
  match signal r with
  | Some name => Js.truthy_string name
  | None => false
  end.

(** [executeProcess] throws on this result. *)
Definition fatal (r : SpawnSyncReturns) : bool :=
  by_signal r || match error r with Some _ => true | None => false end.

(** A [spawnSync] call on which [executeProcess] throws. *)
Definition is_fatal (env : Env) (ev : Event) : Prop :=
  match ev with
  | SpawnSync command argv _ cwd => fatal (spawnSync_result env command argv cwd) = true
  | _ => False
  end.

Definition harmless (env : Env) (ev : Event) : Prop := ~ is_fatal env ev.

(** After a fatal call there are only interrupts and disposals. *)
Fixpoint sealed (env : Env) (tr : list Event) : Prop :=
  match tr with
  | [] => True
  | ev :: post => (is_fatal env ev -> Forall is_cleanup post) /\ sealed env post
  end.

Definition no_fatal (env : Env) (tr : list Event) : Prop :=
  Forall (fun ev => ~ is_fatal env ev) tr.

(** [m] keeps [I] when it returns and leaves [J] when it throws. *)
Definition holds (I J : list Event -> Prop) {A} (m : M A) : Prop :=
  forall s, I (trace s) ->
    match m s with
    | (Return _, s') => I (trace s')
    | (Throw _, s') => J (trace s')
    end.


(** The line [createNpmrcFile] writes for the registry at a port. *)
Definition token_line (port : Z) : FileData :=
  Bytes ("//localhost:" +:+ Js.number_to_string port +:+ "/:_authToken=" +:+ dquote
         +:+ "fooBar" +:+ dquote +:+ newline).


(** [s'] has the files, the children and the handles of [s], and no
    disposal was called in between. *)
Definition same_world (s s' : State) : Prop :=
  files s' = files s /\ running s' = running s /\ disposables s' = disposables s /\
  disposed (trace s') = disposed (trace s).


(** The function of the script that makes a call, numbered in the order of
    [execute]: [startVerdaccio] 0, [createNpmrcFile] 1, [publishExtensions]
    2, [copyApp] 3, [adaptApp] 4, [buildApp] 5, [minifyApp] 6; none for the
    interrupts and the disposals. The three uses of [executeProcess] differ
    in the first argument they give to [yarn]. *)
Definition step_of (ev : Event) : option nat :=
  match ev with
  | Spawn _ _ _ _ | WaitPort _ => Some 0
  | ExistsSync _ | ReadFileSync _ | WriteFileSync _ _ => Some 1
  | Require _ => Some 2
  | SpawnSync _ (Some (JStr subcommand) :: _) _ _ =>
      if String.eqb subcommand "publish" then Some 2
      else if String.eqb subcommand "install" then Some 5
      else if String.eqb subcommand "autoclean" then Some 6
      else None
  | SpawnSync _ _ _ _ => None
  | RemoveSync _ | CopySync _ _ | CopyFileSync _ _ => Some 3
  | ReadJSONSync _ | WriteJSONSync _ _ => Some 4
  | Sigint | Dispose _ => None
  end.

Definition at_most (k : nat) (ev : Event) : Prop :=
  forall i, step_of ev = Some i -> i <= k.

Definition in_step (k : nat) (ev : Event) : Prop :=
  forall i, step_of ev = Some i -> i = k.

(** No call of a function comes after a call of a later function. *)
Fixpoint in_order (tr : list Event) : Prop :=
  match tr with
  | [] => True
  | ev :: post =>
      (forall i, step_of ev = Some i ->
                 Forall (fun ev' => forall j, step_of ev' = Some j -> i <= j) post) /\
      in_order post
  end.

Definition up_to (k : nat) (tr : list Event) : Prop :=
  in_order tr /\ Forall (at_most k) tr.

(** Started after the functions up to [k], [m] ends after the functions up
    to [k'] when it returns, and keeps the order in any case. *)
Definition runs (k k' : nat) {A} (m : M A) : Prop :=
  forall s, up_to k (trace s) ->
    match m s with
    | (Return _, s') => up_to k' (trace s')
    | (Throw _, s') => in_order (trace s')
    end.

(** A [spawnSync] call is [yarn publish] for the given registry, with the
    version that the manifest of its working directory has in [fs]; any
    other call is left alone. *)
Definition publish_call (env : Env) (registry : string) (debug : bool)
    (fs : gmap string FileData) (ev : Event) : Prop :=
  match ev with
  | SpawnSync command argv stdio cwd =>
      command = "yarn" /\ stdio = stdio_of debug /\
      exists doc version,
        fs !! (cwd +:+ "/package.json") = Some (JsonText doc) /\
        (forall st, get_prop doc "version" st = (Return version, st)) /\
        argv = [str "publish"; str "--registry"; str registry; str "--new-version"; version]
  | _ => True
  end.

(** * A small project, for the examples *)

Definition exited (code : Z) : SpawnSyncReturns :=
  {| status := Some code; signal := None; error := None |}.

Definition signalled (name : string) : SpawnSyncReturns :=
  {| status := None; signal := Some name; error := None |}.

Definition manifest (version : string) : FileData :=
  JsonText (JObj {[ "version" := JStr version ]}).

(** Two extensions, an application, a root manifest with one resolution. *)
Definition demo_fs : gmap string FileData :=
  list_to_map
    [("/work/theia-extensions/a/package.json", manifest "1.0.0");
     ("/work/theia-extensions/b/package.json", manifest "2.0.0");
     ("applications/browser/package.json",
      JsonText (JObj {[ "resolutions" := JObj (<["x" := JStr "0.9"]> {[ "y" := JStr "2.0" ]}) ]}));
     ("package.json", JsonText (JObj {[ "resolutions" := JObj {[ "x" := JStr "1.0" ]} ]}));
     ("yarn.lock", Bytes "# yarn lockfile v1")].

(** The copy of the application is in place. *)
Definition copied_fs : gmap string FileData :=
  <["../target/package.json" :=
      JsonText (JObj {[ "resolutions" := JObj (<["x" := JStr "0.9"]> {[ "y" := JStr "2.0" ]}) ]})]>
    demo_fs.

(** The same with a root manifest without resolutions. *)
Definition bare_fs : gmap string FileData :=
  <["package.json" := JsonText (JObj {[ "name" := JStr "root" ]})]> copied_fs.

(** The credential file is there already. *)
Definition npmrc_fs : gmap string FileData :=
  <[".npmrc" := Bytes "registry=https://registry.npmjs.org/"]> demo_fs.

(** Two include patterns that both match the first extension. *)
Definition overlapping_args : Args := {|
  app := app default_args;
  output := output default_args;
  includeExtensions := ["theia-extensions/*"; "theia-extensions/a"];
  excludeExtensions := excludeExtensions default_args;
  verdaccioConfig := verdaccioConfig default_args;
  verdaccioPort := verdaccioPort default_args;
  verdaccioStorage := verdaccioStorage default_args;
  debug := debug default_args
|}.

(** Every child exits with status 0, the port opens, no interrupt. *)
Definition demo_env : Env := {|
  path_resolve := fun p => "/work/" +:+ p;
  glob_sync := fun pattern _ =>
    if String.eqb pattern "theia-extensions/*"
    then ["/work/theia-extensions/a"; "/work/theia-extensions/b"]
    else if String.eqb pattern "theia-extensions/a"
    then ["/work/theia-extensions/a"]
    else [];
  spawnSync_result := fun _ _ _ => exited 0;
  waitPort_result := fun _ => PortOpen;
  sigints := fun _ => 0
|}.


(** A child that exits with status 1. *)
Definition failing_env : Env := {|
  path_resolve := path_resolve demo_env;
  glob_sync := glob_sync demo_env;
  spawnSync_result := fun _ _ _ => exited 1;
  waitPort_result := waitPort_result demo_env;
  sigints := sigints demo_env
|}.

(** The publication of the first extension is ended by a signal. *)
Definition aborted_env : Env := {|
  path_resolve := path_resolve demo_env;
  glob_sync := glob_sync demo_env;
  spawnSync_result := fun _ _ cwd =>
    if String.eqb cwd "/work/theia-extensions/a" then signalled "SIGINT" else exited 0;
  waitPort_result := waitPort_result demo_env;
  sigints := sigints demo_env
|}.

(** The wait for the port of the registry fails. *)
Definition unready_env : Env := {|
  path_resolve := path_resolve demo_env;
  glob_sync := glob_sync demo_env;
  spawnSync_result := spawnSync_result demo_env;
  waitPort_result := fun _ => WaitFailed (Foreign "wait-port");
  sigints := sigints demo_env
|}.

(** What [createNpmrcFile] writes for the default port. *)
Definition demo_npmrc : FileData :=
  Bytes ("//localhost:4873/:_authToken=" +:+ dquote +:+ "fooBar" +:+ dquote +:+ newline).

(** The calls of the run in [aborted_env] before the publication. *)
Definition aborted_prefix : list Event :=
  [Spawn "verdaccio" ["--config"; "configs/verdaccio.config.yaml"; "--listen"; "4873"] None
     [("VERDACCIO_STORAGE_PATH", "/work/verdaccio-storage")];
   WaitPort 4873;
   ExistsSync ".npmrc";
   WriteFileSync ".npmrc" demo_npmrc;
   Require "/work/theia-extensions/a/package.json"].

Definition publish_argv (version : string) : list value :=
  [str "publish"; str "--registry"; str "http://localhost:4873"; str "--new-version";
   str version].

(** The second extension has lost its manifest. *)
Definition without_b_fs : gmap string FileData :=
  delete "/work/theia-extensions/b/package.json" demo_fs.

(** * Properties *)

(** ** What a computation adds to the state *)

#[global] Instance Forall_closed (phi : Event -> Prop) : Closed (Forall phi).
Proof.
  split; [constructor |]. intros evs1 evs2 H1 H2. apply Forall_app; split; assumption.
Qed.

Lemma ext_refl Phi `{!Closed Phi} s : ext Phi s s.
Proof.
  split; [reflexivity | exists []; split; [symmetry; apply app_nil_r | apply closed_nil]].
Qed.

Lemma ext_trans Phi `{!Closed Phi} s1 s2 s3 : ext Phi s1 s2 -> ext Phi s2 s3 -> ext Phi s1 s3.
Proof.
  intros [Hd1 (evs1 & Ht1 & Hf1)] [Hd2 (evs2 & Ht2 & Hf2)]. split.
  - congruence.
  - exists (evs1 ++ evs2). split.
    + rewrite Ht2, Ht1. symmetry. apply app_assoc.
    + apply closed_app; assumption.
Qed.

Lemma ext_mono (Phi Psi : list Event -> Prop) s s' :
  (forall evs, Phi evs -> Psi evs) -> ext Phi s s' -> ext Psi s s'.
Proof.
  intros Himp [Hd (evs & Ht & Hf)]. split; [assumption |].
  exists evs. split; [assumption | apply Himp, Hf].
Qed.

Lemma ext_silent Phi `{!Closed Phi} s s' :
  disposables s' = disposables s -> trace s' = trace s -> ext Phi s s'.
Proof.
  intros Hd Ht. split; [exact Hd |]. exists []. split; [| apply closed_nil].
  rewrite Ht. symmetry. apply app_nil_r.
Qed.

Lemma ext_log Phi ev s : Phi [ev] -> ext Phi s (log ev s).2.
Proof.
  intros Hev. split; [reflexivity |]. exists [ev]. split; [reflexivity | exact Hev].
Qed.

Section Acts.

Variable P : list Disposable -> Prop.
Variable Phi : list Event -> Prop.
Context `{!Closed Phi}.

Lemma acts_ret {A} (a : A) : acts P Phi (ret a).
Proof. intros s _. apply ext_refl, _. Qed.

Lemma acts_throw {A} (e : Exn) : acts P Phi (@throw A e).
Proof. intros s _. apply ext_refl, _. Qed.

Lemma acts_bind {A B} (m : M A) (k : A -> M B) :
  acts P Phi m -> (forall a, acts P Phi (k a)) -> acts P Phi (bind m k).
Proof.
  intros Hm Hk s HP. unfold bind. specialize (Hm s HP).
  destruct (m s) as [[a | e] s']; simpl in *.
  - eapply ext_trans; [exact _ | exact Hm |]. apply Hk.
    destruct Hm as [-> _]. exact HP.
  - exact Hm.
Qed.

Lemma acts_for_of {A} (l : list A) (body : A -> M unit) :
  (forall x, x ∈ l -> acts P Phi (body x)) -> acts P Phi (for_of l body).
Proof.
  induction l as [| x l IH]; intros Hbody; simpl.
  - apply acts_ret.
  - apply acts_bind.
    + apply Hbody. left.
    + intros _. apply IH. intros y Hy. apply Hbody. right. exact Hy.
Qed.

Lemma acts_log ev : Phi [ev] -> acts P Phi (log ev).
Proof. intros Hev s _. apply ext_log, Hev. Qed.

Lemma acts_get_files : acts P Phi get_files.
Proof. intros s _. apply ext_refl, _. Qed.

Lemma acts_set_files fs : acts P Phi (set_files fs).
Proof. intros s _. apply ext_silent; [exact _ | reflexivity | reflexivity]. Qed.

Lemma acts_start_child : acts P Phi start_child.
Proof. intros s _. apply ext_silent; [exact _ | reflexivity | reflexivity]. Qed.

Lemma acts_kill child : acts P Phi (kill child).
Proof. intros s _. apply ext_silent; [exact _ | reflexivity | reflexivity]. Qed.

End Acts.

Lemma bind_eq {A B} (m : M A) (k : A -> M B) s :
  bind m k s = match m s with
               | (Return a, s') => k a s'
               | (Throw e, s') => (Throw e, s')
               end.
Proof. reflexivity. Qed.

Lemma bind_push {B} d (k : unit -> M B) s : bind (push d) k s = k tt (push d s).2.
Proof. reflexivity. Qed.

Lemma await_eq env {A} (m : M A) s :
  await env m s = ((m s).1, suspend env (m s).2).
Proof. unfold await. destruct (m s); reflexivity. Qed.

(** ** Disposal never fails *)

Section Cleanup.

Variable env : Env.

Lemma dispose_returns d s : (dispose d s).1 = Return tt.
Proof. destruct d as [h dir | [c |]]; reflexivity. Qed.

Lemma dispose_silent d s :
  trace (dispose d s).2 = trace s /\
  disposables (dispose d s).2 = disposables s /\
  turn (dispose d s).2 = turn s.
Proof. destruct d as [h dir | [c |]]; repeat split. Qed.

Lemma invoke_spec d s :
  exists s1, invoke d s = (Return tt, s1) /\
    trace s1 = trace s ++ [Dispose d] /\
    disposables s1 = disposables s /\ turn s1 = turn s.
Proof.
  unfold invoke, bind. simpl.
  pose proof (dispose_returns d (log (Dispose d) s).2) as Hr.
  pose proof (dispose_silent d (log (Dispose d) s).2) as (Ht & Hd & Hn).
  simpl in *.
  destruct (dispose d _) as [r s1]; simpl in *. subst r.
  exists s1. repeat split; assumption.
Qed.

Lemma invoke_all ds : forall s,
  (for_of ds invoke s).1 = Return tt /\
  trace (for_of ds invoke s).2 = trace s ++ map Dispose ds /\
  disposables (for_of ds invoke s).2 = disposables s /\
  turn (for_of ds invoke s).2 = turn s.
Proof.
  induction ds as [| d ds IH]; intros s; simpl.
  - repeat split. symmetry. apply app_nil_r.
  - destruct (invoke_spec d s) as (s1 & Heq & Ht & Hd & Hn).
    unfold bind. rewrite Heq.
    destruct (IH s1) as (Hr' & Ht' & Hd' & Hn').
    repeat split; try congruence.
    rewrite Ht', Ht, <- app_assoc. reflexivity.
Qed.

Lemma cleanup_spec s :
  (cleanup s).1 = Return tt /\
  trace (cleanup s).2 = trace s ++ map Dispose (disposables s) /\
  disposables (cleanup s).2 = disposables s /\
  turn (cleanup s).2 = turn s.
Proof. unfold cleanup, bind, get_disposables. apply invoke_all. Qed.

Lemma on_sigint_spec s :
  trace (on_sigint s).2 = trace s ++ Sigint :: map Dispose (disposables s) /\
  disposables (on_sigint s).2 = disposables s /\
  turn (on_sigint s).2 = turn s.
Proof.
  unfold on_sigint, bind. simpl.
  destruct (cleanup_spec (log Sigint s).2) as (_ & Ht & Hd & Hn). simpl in *.
  repeat split; try assumption.
  rewrite Ht, <- app_assoc. reflexivity.
Qed.

Lemma Forall_cleanup_disposals ds : Forall is_cleanup (map Dispose ds).
Proof. induction ds; simpl; constructor; simpl; auto. Qed.

Lemma handle_signals_ext n s : ext (Forall is_cleanup) s (handle_signals n s).
Proof.
  induction n as [| n IH]; simpl.
  - apply ext_refl, _.
  - eapply ext_trans; [exact _ | exact IH |].
    destruct (on_sigint_spec (handle_signals n s)) as (Ht & Hd & _).
    split; [exact Hd |]. eexists. split; [exact Ht |].
    constructor; [exact I | apply Forall_cleanup_disposals].
Qed.

Lemma next_turn_ext Phi `{!Closed Phi} s : ext Phi s (next_turn s).
Proof. apply ext_silent; [exact _ | reflexivity | reflexivity]. Qed.

(** A suspension adds interrupts and disposals only. *)
Lemma suspend_ext s : ext (Forall is_cleanup) s (suspend env s).
Proof.
  unfold suspend. eapply ext_trans; [exact _ | apply next_turn_ext, _ | apply handle_signals_ext].
Qed.

#[global] Instance blocks_closed : Closed blocks.
Proof.
  split; [constructor |]. intros evs1 evs2 H1 H2.
  induction H2 as [| evs ev _ IH Hev | evs ds _ IH Hds].
  - rewrite app_nil_r. exact H1.
  - rewrite app_assoc. constructor; assumption.
  - rewrite app_assoc. constructor; assumption.
Qed.



Lemma suspend_quiet s : quiet env -> suspend env s = next_turn s.
Proof. intros Hq. unfold suspend. rewrite Hq. reflexivity. Qed.

End Cleanup.

(** ** The calls of the steps *)

Section Alphabet.

Variable env : Env.
Variable P : list Disposable -> Prop.
Variable Phi : list Event -> Prop.
Context `{!Closed Phi}.
Hypothesis Hsusp : forall s, P (disposables s) -> ext Phi s (suspend env s).

Lemma acts_await {A} (m : M A) : acts P Phi m -> acts P Phi (await env m).
Proof.
  intros Hm s HP. unfold await. specialize (Hm s HP).
  destruct (m s) as [r s']; simpl in *.
  eapply ext_trans; [exact _ | exact Hm | apply Hsusp].
  destruct Hm as [-> _]. exact HP.
Qed.

Ltac acts_tac :=
  repeat match goal with
         | |- Closed _ => exact _
         | |- forall _, acts _ _ _ => intros ?
         | |- acts _ _ (ret _) => apply acts_ret
         | |- acts _ _ (throw _) => apply acts_throw
         | |- acts _ _ get_files => apply acts_get_files
         | |- acts _ _ (set_files _) => apply acts_set_files
         | |- acts _ _ start_child => apply acts_start_child
         | |- acts _ _ (kill _) => apply acts_kill
         | |- acts _ _ (log _) => apply acts_log
         | |- acts _ _ (await _ _) => apply acts_await
         | |- acts _ _ (bind _ _) => apply acts_bind
         | |- acts _ _ (match ?x with _ => _ end) => destruct x
         end.

Lemma acts_parse_file path : acts P Phi (parse_file path).
Proof. unfold parse_file. acts_tac. Qed.

Lemma acts_get_prop o key : acts P Phi (get_prop o key).
Proof. unfold get_prop. acts_tac. Qed.

Lemma acts_set_prop o key v : acts P Phi (set_prop o key v).
Proof. unfold set_prop. acts_tac. Qed.

Lemma acts_executeProcess command argv target debug :
  Phi [SpawnSync command argv (stdio_of debug) target] ->
  acts P Phi (executeProcess env command argv target debug).
Proof. intros H. unfold executeProcess, spawnSync. acts_tac. exact H. Qed.

Lemma acts_createNpmrcFile registry :
  (forall ev, match ev with
              | ExistsSync path | ReadFileSync path | WriteFileSync path _ =>
                  path = ".npmrc" -> Phi [ev]
              | _ => True
              end) ->
  acts P Phi (createNpmrcFile registry).
Proof.
  intros H. unfold createNpmrcFile, existsSync, readFileSync, writeFileSync.
  acts_tac;
    match goal with
    | |- Phi [?ev] => apply (H ev); reflexivity
    end.
Qed.

Lemma acts_startVerdaccio config port storage debug :
  Phi [Spawn "verdaccio" (verdaccio_args config port) (stdio_of debug)
         [("VERDACCIO_STORAGE_PATH", path_resolve env storage)]] ->
  Phi [WaitPort port] ->
  acts P Phi (startVerdaccio env config port storage debug).
Proof.
  intros H1 H2. unfold startVerdaccio, spawn, waitPort. acts_tac; assumption.
Qed.

Lemma acts_publish registry debug extensionPath :
  Phi [Require (extensionPath +:+ "/package.json")] ->
  (forall version,
     Phi [SpawnSync "yarn"
            [str "publish"; str "--registry"; str registry; str "--new-version"; version]
            (stdio_of debug) extensionPath]) ->
  acts P Phi (publish env registry debug extensionPath).
Proof.
  intros H1 H2. unfold publish, require.
  acts_tac; try assumption; try apply acts_parse_file; try apply acts_get_prop.
  apply acts_executeProcess, H2.
Qed.

Lemma acts_copyApp app target :
  Phi [RemoveSync target] -> Phi [CopySync app target] ->
  Phi [CopyFileSync "yarn.lock" (target +:+ "yarn.lock")] ->
  acts P Phi (copyApp env app target).
Proof.
  intros H1 H2 H3. unfold copyApp, removeSync, copySync, copyFileSync.
  acts_tac; assumption.
Qed.

Lemma acts_adaptApp target :
  Phi [ReadJSONSync "package.json"] -> Phi [ReadJSONSync (target +:+ "package.json")] ->
  (forall doc, Phi [WriteJSONSync (target +:+ "package.json") doc]) ->
  acts P Phi (adaptApp env target).
Proof.
  intros H1 H2 H3. unfold adaptApp, readJSONSync, writeJSONSync.
  acts_tac; try assumption; try apply acts_parse_file; try apply acts_get_prop;
    try apply acts_set_prop.
  apply H3.
Qed.

Lemma acts_buildApp target registry debug :
  Phi [SpawnSync "yarn"
         [str "install"; str "--registry"; str registry; str "--network-timeout";
          str "100000"] (stdio_of debug) target] ->
  acts P Phi (buildApp env target registry debug).
Proof. intros H. unfold buildApp. apply acts_await, acts_executeProcess, H. Qed.

Lemma acts_minifyApp target debug :
  Phi [SpawnSync "yarn" [str "autoclean"; str "--init"] (stdio_of debug) target] ->
  Phi [SpawnSync "yarn" [str "autoclean"; str "--force"] (stdio_of debug) target] ->
  acts P Phi (minifyApp env target debug).
Proof.
  intros H1 H2. unfold minifyApp.
  acts_tac; apply acts_executeProcess; assumption.
Qed.

Lemma acts_publishExtensions registry includes ignores debug :
  (forall extensionPath, extensionPath ∈ uniquePaths env includes ignores ->
     Phi [Require (extensionPath +:+ "/package.json")] /\
     forall version,
       Phi [SpawnSync "yarn"
              [str "publish"; str "--registry"; str registry; str "--new-version"; version]
              (stdio_of debug) extensionPath]) ->
  acts P Phi (publishExtensions env registry includes ignores debug).
Proof.
  intros H. unfold publishExtensions. apply acts_for_of; [exact _ |].
  intros x Hx. destruct (H x Hx) as [H1 H2]. apply acts_publish; assumption.
Qed.

Variable args : Args.
Hypothesis Hphi : forall ev, step_event env args ev -> Phi [ev].
Hypothesis HP : forall ds, registered env args ds -> P ds.

Lemma acts_later_steps : acts P Phi (later_steps env args).
Proof.
  unfold later_steps. acts_tac.
  - apply acts_publishExtensions. intros x Hx. split; [| intros version].
    + apply Hphi. simpl. eauto.
    + apply Hphi. simpl. eauto 10.
  - apply acts_copyApp; apply Hphi; simpl; auto.
  - apply acts_adaptApp; try intros doc; apply Hphi; simpl; auto.
  - apply acts_buildApp; apply Hphi; simpl; auto 10.
  - apply acts_minifyApp; apply Hphi; simpl; auto 10.
Qed.

Lemma acts_await_startVerdaccio :
  acts P Phi (await env (startVerdaccio env (verdaccioConfig args) (verdaccioPort args)
                         (verdaccioStorage args) (debug args))).
Proof.
  apply acts_await, acts_startVerdaccio; apply Hphi; simpl; auto.
Qed.

Lemma acts_await_createNpmrcFile :
  acts P Phi (await env (createNpmrcFile (registry_of (verdaccioPort args)))).
Proof.
  apply acts_await, acts_createNpmrcFile.
  intros [] ; try exact I; intros ->; apply Hphi; reflexivity.
Qed.

Lemma ext_grow s s' : ext Phi s s' -> grow Phi [] s s'.
Proof. intros [Hd He]. split; [rewrite app_nil_r; exact Hd | exact He]. Qed.

Lemma grow_trans ds1 ds2 s1 s2 s3 :
  grow Phi ds1 s1 s2 -> grow Phi ds2 s2 s3 -> grow Phi (ds1 ++ ds2) s1 s3.
Proof.
  intros [Hd1 (evs1 & Ht1 & Hf1)] [Hd2 (evs2 & Ht2 & Hf2)]. split.
  - rewrite Hd2, Hd1. symmetry. apply app_assoc.
  - exists (evs1 ++ evs2). split.
    + rewrite Ht2, Ht1. symmetry. apply app_assoc.
    + apply closed_app; assumption.
Qed.

Lemma grow_ext_l ds s1 s2 s3 : ext Phi s1 s2 -> grow Phi ds s2 s3 -> grow Phi ds s1 s3.
Proof. intros H1 H2. apply (grow_trans [] ds s1 s2 s3); [apply ext_grow, H1 | exact H2]. Qed.

Lemma grow_ext_r ds s1 s2 s3 : grow Phi ds s1 s2 -> ext Phi s2 s3 -> grow Phi ds s1 s3.
Proof.
  intros H1 H2. rewrite <- (app_nil_r ds).
  apply (grow_trans ds [] s1 s2 s3); [exact H1 | apply ext_grow, H2].
Qed.

Lemma grow_push d s : grow Phi [d] s (push d s).2.
Proof.
  split; [reflexivity |]. exists []. split; [symmetry; apply app_nil_r | apply closed_nil].
Qed.

Lemma startVerdaccio_result config port storage debug s d s' :
  startVerdaccio env config port storage debug s = (Return d, s') ->
  exists h, d = VerdaccioDisposable h (path_resolve env storage).
Proof.
  unfold startVerdaccio, spawn, waitPort, await, bind. simpl.
  destruct (waitPort_result env port); simpl; intros H; inversion H. eauto.
Qed.

Lemma createNpmrcFile_result registry s d s' :
  createNpmrcFile registry s = (Return d, s') -> exists c, d = NpmrcDisposable c.
Proof.
  unfold createNpmrcFile, existsSync, readFileSync, writeFileSync, bind. simpl.
  destruct (Fs.exists_ ".npmrc" (files s)); simpl.
  - destruct (files s !! ".npmrc"); simpl; intros H; inversion H. eauto.
  - intros H; inversion H. eauto.
Qed.

Lemma steps_eq :
  steps env args =
  (let* d := await env (startVerdaccio env (verdaccioConfig args) (verdaccioPort args)
                          (verdaccioStorage args) (debug args)) in
   after_verdaccio env args d).
Proof. reflexivity. Qed.

(** After the registry: its handle is registered, then the handle of the
    credential file unless its creation throws. *)
Lemma after_verdaccio_spec h s :
  let d := VerdaccioDisposable h (path_resolve env (verdaccioStorage args)) in
  disposables s = [] ->
  exists ds, grow Phi (d :: ds) s (after_verdaccio env args d s).2 /\
    (ds = [] \/ exists c, ds = [NpmrcDisposable c]) /\
    ((after_verdaccio env args d s).1 = Return tt -> length ds = 1).
Proof.
  intros d Hnil. unfold after_verdaccio. rewrite bind_push.
  set (s2 := (push d s).2).
  assert (G2 : grow Phi [d] s s2) by apply grow_push.
  assert (Hd2 : disposables s2 = [d]) by (destruct G2 as [-> _]; rewrite Hnil; reflexivity).
  rewrite bind_eq.
  assert (HP2 : P (disposables s2)) by (rewrite Hd2; apply HP; right; left; eauto).
  pose proof (acts_await_createNpmrcFile s2 HP2) as H3.
  rewrite await_eq in *. cbn [fst snd] in H3 |- *.
  destruct (createNpmrcFile _ s2) as [[d' | e] s3] eqn:E3; cbn [fst snd] in H3 |- *.
  2:{ exists []. split; [eapply grow_ext_r; [exact G2 | exact H3] |].
      split; [left; reflexivity | discriminate]. }
  apply createNpmrcFile_result in E3 as [c ->].
  rewrite bind_push.
  set (s4 := (push _ (suspend env s3)).2).
  assert (Hd4 : disposables s4 = [d; NpmrcDisposable c]).
  { subst s4. cbn [push snd disposables]. destruct H3 as [-> _]. rewrite Hd2. reflexivity. }
  assert (HP4 : P (disposables s4)) by (rewrite Hd4; apply HP; right; right; eauto).
  pose proof (acts_later_steps s4 HP4) as H5.
  exists [NpmrcDisposable c]. split.
  - eapply (grow_trans [d] [NpmrcDisposable c]); [exact G2 |].
    eapply grow_ext_l; [exact H3 |].
    eapply grow_ext_r; [apply grow_push | exact H5].
  - split; [right; eauto | reflexivity].
Qed.

(** The steps register at most the two handles, in this order, and both
    when they all succeed. *)
Lemma steps_spec s :
  disposables s = [] ->
  exists ds, grow Phi ds s (steps env args s).2 /\
    registered env args ds /\
    ((steps env args s).1 = Return tt -> length ds = 2).
Proof.
  intros Hnil. rewrite steps_eq. rewrite bind_eq.
  assert (HP0 : P (disposables s)) by (rewrite Hnil; apply HP; left; reflexivity).
  pose proof (acts_await_startVerdaccio s HP0) as H1.
  rewrite await_eq in *. cbn [fst snd] in H1 |- *.
  destruct (startVerdaccio _ _ _ _ _ s) as [[d | e] s1] eqn:E1; cbn [fst snd] in H1 |- *.
  2:{ exists []. split; [apply ext_grow, H1 |]. split; [left; reflexivity | discriminate]. }
  apply startVerdaccio_result in E1 as [h ->].
  destruct (after_verdaccio_spec h (suspend env s1)) as (ds & G & Hds & Hlen).
  { destruct H1 as [-> _]. exact Hnil. }
  eexists. split; [eapply grow_ext_l; [exact H1 | exact G] |]. split.
  - destruct Hds as [-> | [c ->]]; [right; left; eauto | right; right; eauto].
  - intros Hr. simpl. rewrite (Hlen Hr). reflexivity.
Qed.

(** [execute]: the steps, then one disposal of each registered handle. *)
Lemma execute_spec s0 :
  exists ds evs,
    disposables (execute env args s0).2 = ds /\
    registered env args ds /\
    trace (execute env args s0).2 = trace s0 ++ evs ++ map Dispose ds /\
    Phi evs /\
    ((execute env args s0).1 = Return tt -> length ds = 2).
Proof.
  unfold execute. rewrite bind_eq.
  set (s1 := (set_disposables [] s0).2).
  change (set_disposables [] s0) with (Return tt, s1). cbv iota.
  assert (Hs1 : disposables s1 = []) by reflexivity.
  assert (Ht1 : trace s1 = trace s0) by reflexivity.
  destruct (steps_spec s1 Hs1) as (ds & [Hd (evs & Ht & Hf)] & Hreg & Hlen).
  unfold try_finally.
  destruct (steps env args s1) as [r s2]; cbn [fst snd] in *.
  destruct (cleanup_spec s2) as (Hr & Ht' & Hd' & _).
  destruct (cleanup s2) as [r' s3]; cbn [fst snd] in *. subst r'.
  rewrite Hs1 in Hd. rewrite Ht1 in Ht. rewrite app_nil_l in Hd.
  exists ds, evs. cbn [fst snd]. repeat split.
  - congruence.
  - exact Hreg.
  - rewrite Ht', Ht, Hd, <- app_assoc. reflexivity.
  - exact Hf.
  - exact Hlen.
Qed.

End Alphabet.

Section Runs.

Variable env : Env.

Lemma suspend_step_or_cleanup args s :
  anything (disposables s) -> ext (Forall (step_or_cleanup env args)) s (suspend env s).
Proof.
  intros _. eapply ext_mono; [| apply suspend_ext]. intros evs H.
  eapply Forall_impl; [exact H |]. intros ev Hev. right. exact Hev.
Qed.


Lemma script_eq args fs :
  script env args fs =
  ((execute env args (initial fs)).1, suspend env (execute env args (initial fs)).2).
Proof. unfold script. destruct (execute env args (initial fs)); reflexivity. Qed.

(** [execute], whatever the interrupts. *)
Lemma execute_any args s0 :
  exists ds evs,
    disposables (execute env args s0).2 = ds /\
    registered env args ds /\
    trace (execute env args s0).2 = trace s0 ++ evs ++ map Dispose ds /\
    Forall (step_or_cleanup env args) evs.
Proof.
  destruct (execute_spec env anything (Forall (step_or_cleanup env args))
              (suspend_step_or_cleanup args) args) with (s0 := s0)
    as (ds & evs & H1 & H2 & H3 & H4 & _).
  - intros ev Hev. apply Forall_singleton. left. exact Hev.
  - intros ds _. exact I.
  - exists ds, evs. auto.
Qed.





Lemma disposed_app tr1 tr2 : disposed (tr1 ++ tr2) = disposed tr1 ++ disposed tr2.
Proof. apply omap_app. Qed.







End Runs.

(** ** Runs of the script *)





(** ** The output directory *)






(** ** The process executor *)

(** What [executeProcess] does with each result of [spawnSync]. *)
Lemma executeProcess_result (env : Env) (command : string) (argv : list value)
    (target : string) (debug : bool) (s : State) :
  (executeProcess env command argv target debug s).1 =
  let result := spawnSync_result env command argv target in
  if by_signal result then Throw (Error "Aborted.")
  else match error result with
       | Some e => Throw e
       | None => Return tt
       end.
Proof.
  cbv zeta. unfold executeProcess, spawnSync, await, bind, by_signal. simpl.
  destruct (spawnSync_result env command argv target) as [st [name |] [e |]]; simpl.
  all: try destruct (Js.truthy_string name); reflexivity.
Qed.

(** C3. [executeProcess] throws exactly when the child was ended by a signal,
    and then it throws [Error "Aborted."], or, without a signal, when the
    launch gave an error, and then it throws that error. The exit status
    plays no part: a child that exits with any status, without signal and
    without error, makes [executeProcess] return. *)
Theorem executeProcess_throws_iff (env : Env) (command : string) (argv : list value)
    (target : string) (debug : bool) (s : State) :
  let result := spawnSync_result env command argv target in
  match (executeProcess env command argv target debug s).1 with
  | Throw e =>
      (by_signal result = true /\ e = Error "Aborted.") \/
      (by_signal result = false /\ error result = Some e)
  | Return _ => by_signal result = false /\ error result = None
  end /\
  forall code : Z,
    status result = Some code -> signal result = None -> error result = None ->
    (executeProcess env command argv target debug s).1 = Return tt.
Proof.
  cbv zeta. rewrite executeProcess_result. cbv zeta. unfold by_signal.
  destruct (spawnSync_result env command argv target) as [st [name |] [e |]]; simpl.
  all: try destruct (Js.truthy_string name); simpl.
  all: split; [auto | intros code H1 H2 H3; try discriminate; reflexivity].
Qed.

Lemma executeProcess_throws_iff_witness :
  (executeProcess failing_env "yarn" [str "install"] "../target/" false (initial demo_fs)).1
  = Return tt.
Proof.
  apply (proj2 (executeProcess_throws_iff failing_env "yarn" [str "install"] "../target/"
                  false (initial demo_fs)) 1%Z); reflexivity.
Defined.

(** ** The arguments of the registry *)

(** C9, what the code does. With an empty configuration path the first
    argument of the registry is the empty string, whatever the port; with
    the default port the registry gets three arguments; with port 0 the last
    one is the empty string; with both falsy it gets two empty strings. Only
    with both truthy is the list the two options and nothing else. *)
Theorem verdaccio_args_keep_empty_strings :
  (forall port, exists rest, verdaccio_args "" port = "" :: rest) /\
  verdaccio_args "" 4873 = [""; "--listen"; "4873"] /\
  verdaccio_args "configs/verdaccio.config.yaml" 0 =
    ["--config"; "configs/verdaccio.config.yaml"; ""] /\
  verdaccio_args "" 0 = [""; ""] /\
  verdaccio_args "configs/verdaccio.config.yaml" 4873 =
    ["--config"; "configs/verdaccio.config.yaml"; "--listen"; "4873"].
Proof.
  split.
  - intros port. unfold verdaccio_args. cbn [Js.truthy_string].
    change ("" +:+ " " +:+ ?x) with (String " " x).
    cbn [Js.split Ascii.eqb Bool.eqb]. eauto.
  - repeat split; vm_compute; reflexivity.
Qed.

(** ** The credential file *)

Lemma within_self p : Fs.within p p = true.
Proof. unfold Fs.within. rewrite String.eqb_refl. reflexivity. Qed.

Lemma exists_file p fs data : fs !! p = Some data -> Fs.exists_ p fs = true.
Proof.
  intros H. unfold Fs.exists_. apply bool_decide_eq_true. intros Hempty.
  assert (Hl : filter (fun kv : string * FileData => Fs.within p kv.1 = true) fs !! p
               = Some data).
  { apply map_lookup_filter_Some. split; [exact H | apply within_self]. }
  rewrite Hempty, lookup_empty in Hl. discriminate.
Qed.

Lemma remove_self p fs : Fs.remove p fs !! p = None.
Proof.
  unfold Fs.remove. apply map_lookup_filter_None. right.
  intros data _. simpl. rewrite within_self. discriminate.
Qed.

(** C4. When the credential file exists with content [C], [createNpmrcFile]
    overwrites it and returns a handle that holds [C]; disposing the handle,
    in whatever state, puts [C] back and touches no other file. When there is
    neither a file nor a directory of that name, the handle is the one that
    removes the file, in whatever state it is disposed. The choice is in the
    handle: disposal does not look at the file system to make it. *)
Theorem npmrc_round_trip (registry : string) (s : State) :
  (forall C : FileData,
     files s !! ".npmrc" = Some C ->
     exists s1 line,
       createNpmrcFile registry s = (Return (NpmrcDisposable (RestoreContent C)), s1) /\
       files s1 !! ".npmrc" = Some (Bytes line) /\
       files (dispose (NpmrcDisposable (RestoreContent C)) s1).2 !! ".npmrc" = Some C /\
       forall s2 : State,
         files (dispose (NpmrcDisposable (RestoreContent C)) s2).2 !! ".npmrc" = Some C /\
         forall p, p <> ".npmrc" ->
           files (dispose (NpmrcDisposable (RestoreContent C)) s2).2 !! p = files s2 !! p) /\
  (Fs.exists_ ".npmrc" (files s) = false ->
     exists s1 line,
       createNpmrcFile registry s = (Return (NpmrcDisposable RemoveFile), s1) /\
       files s1 !! ".npmrc" = Some (Bytes line) /\
       files (dispose (NpmrcDisposable RemoveFile) s1).2 !! ".npmrc" = None /\
       forall s2 : State,
         files (dispose (NpmrcDisposable RemoveFile) s2).2 !! ".npmrc" = None).
Proof.
  split.
  - intros C HC.
    unfold createNpmrcFile, existsSync, readFileSync, writeFileSync, bind. simpl.
    rewrite (exists_file _ _ _ HC). simpl. rewrite HC. simpl.
    eexists. eexists. split; [reflexivity |]. simpl.
    split; [apply lookup_insert_eq |].
    split; [apply lookup_insert_eq |].
    intros s2. split; [apply lookup_insert_eq |].
    intros p Hp. apply lookup_insert_ne. congruence.
  - intros Hnone.
    unfold createNpmrcFile, existsSync, readFileSync, writeFileSync, bind. simpl.
    rewrite Hnone. simpl.
    eexists. eexists. split; [reflexivity |]. simpl.
    split; [apply lookup_insert_eq |].
    split; [apply remove_self |].
    intros s2. apply remove_self.
Qed.

Lemma npmrc_round_trip_witness :
  (exists s1 line,
     createNpmrcFile "http://localhost:4873" (initial npmrc_fs)
     = (Return (NpmrcDisposable (RestoreContent (Bytes "registry=https://registry.npmjs.org/"))),
        s1) /\
     files s1 !! ".npmrc" = Some (Bytes line) /\
     files (dispose (NpmrcDisposable
                       (RestoreContent (Bytes "registry=https://registry.npmjs.org/"))) s1).2
       !! ".npmrc" = Some (Bytes "registry=https://registry.npmjs.org/") /\
     forall s2 : State,
       files (dispose (NpmrcDisposable
                         (RestoreContent (Bytes "registry=https://registry.npmjs.org/"))) s2).2
         !! ".npmrc" = Some (Bytes "registry=https://registry.npmjs.org/") /\
       forall p, p <> ".npmrc" ->
         files (dispose (NpmrcDisposable
                           (RestoreContent (Bytes "registry=https://registry.npmjs.org/"))) s2).2
           !! p = files s2 !! p) /\
  (exists s1 line,
     createNpmrcFile "http://localhost:4873" (initial demo_fs)
     = (Return (NpmrcDisposable RemoveFile), s1) /\
     files s1 !! ".npmrc" = Some (Bytes line) /\
     files (dispose (NpmrcDisposable RemoveFile) s1).2 !! ".npmrc" = None /\
     forall s2 : State, files (dispose (NpmrcDisposable RemoveFile) s2).2 !! ".npmrc" = None).
Proof.
  split.
  - apply (proj1 (npmrc_round_trip "http://localhost:4873" (initial npmrc_fs))).
    vm_compute. reflexivity.
  - apply (proj2 (npmrc_round_trip "http://localhost:4873" (initial demo_fs))).
    vm_compute. reflexivity.
Defined.

(** ** The manifest of the copied application *)

Lemma readJSONSync_eq path doc s :
  files s !! path = Some (JsonText doc) ->
  readJSONSync path s = (Return doc, (log (ReadJSONSync path) s).2).
Proof.
  intros H. unfold readJSONSync, parse_file, bind, get_files. cbn [log fst snd files].
  rewrite H. reflexivity.
Qed.

Lemma await_quiet env {A} (m : M A) s :
  quiet env -> await env m s = ((m s).1, next_turn (m s).2).
Proof. intros Hq. rewrite await_eq, suspend_quiet by exact Hq. reflexivity. Qed.

(** C5. No interrupt being handled: when the root manifest has an object
    under [resolutions], [adaptApp] writes the manifest of the copy back with
    its [resolutions] replaced by the union of its own and the root's, where
    a key of the root takes the root's value, and nothing else changes in
    the file system; when the root manifest has no [resolutions], no file
    changes and nothing is written. *)
Theorem adaptApp_merges_resolutions (env : Env) (target : string) (s : State)
    (root : gmap string json) :
  quiet env ->
  files s !! "package.json" = Some (JsonText (JObj root)) ->
  (forall (rootResolutions copy : gmap string json),
     root !! "resolutions" = Some (JObj rootResolutions) ->
     files s !! (target +:+ "package.json") = Some (JsonText (JObj copy)) ->
     let merged := Json.spread2 (copy !! "resolutions") (Some (JObj rootResolutions)) in
     (adaptApp env target s).1 = Return tt /\
     files (adaptApp env target s).2 =
       <[target +:+ "package.json" := JsonText (JObj (<["resolutions" := JObj merged]> copy))]>
         (files s) /\
     forall key,
       merged !! key =
       match rootResolutions !! key with
       | Some v => Some v
       | None => Json.own_props (copy !! "resolutions") !! key
       end) /\
  (root !! "resolutions" = None ->
     (adaptApp env target s).1 = Return tt /\
     files (adaptApp env target s).2 = files s /\
     exists evs, trace (adaptApp env target s).2 = trace s ++ evs /\
                 Forall (fun ev => ~ is_write ev) evs).
Proof.
  intros Hq Hroot. split.
  - intros rr copy Hrr Hcopy. cbv zeta.
    unfold adaptApp. rewrite bind_eq, await_quiet by exact Hq.
    rewrite (readJSONSync_eq _ _ _ Hroot). cbn [fst snd].
    rewrite bind_eq. cbn [get_prop ret]. rewrite Hrr. cbn [Json.truthy].
    rewrite bind_eq, await_quiet by exact Hq.
    rewrite (readJSONSync_eq _ (JObj copy)) by exact Hcopy. cbn [fst snd].
    rewrite bind_eq. cbn [get_prop ret]. rewrite bind_eq. cbn [set_prop ret].
    rewrite await_quiet by exact Hq.
    split; [reflexivity |]. split; [reflexivity |].
    intros key. unfold Json.spread2. cbn [Json.own_props].
    rewrite lookup_union. destruct (rr !! key) as [v |]; simpl.
    + destruct (Json.own_props (copy !! "resolutions") !! key); reflexivity.
    + destruct (Json.own_props (copy !! "resolutions") !! key); reflexivity.
  - intros Hnone.
    unfold adaptApp. rewrite bind_eq, await_quiet by exact Hq.
    rewrite (readJSONSync_eq _ _ _ Hroot). cbn [fst snd].
    rewrite bind_eq. cbn [get_prop ret]. rewrite Hnone. cbn [Json.truthy].
    split; [reflexivity |]. split; [reflexivity |].
    exists [ReadJSONSync "package.json"]. split; [reflexivity |].
    constructor; [| constructor]. simpl. tauto.
Qed.

Lemma adaptApp_merges_resolutions_witness :
  (adaptApp demo_env "../target/" (initial copied_fs)).1 = Return tt /\
  files (adaptApp demo_env "../target/" (initial bare_fs)).2 = bare_fs.
Proof.
  split.
  - refine (proj1 (proj1 (adaptApp_merges_resolutions demo_env "../target/" (initial copied_fs)
                            {[ "resolutions" := JObj {[ "x" := JStr "1.0" ]} ]} _ _)
                     {[ "x" := JStr "1.0" ]}
                     {[ "resolutions" := JObj (<["x" := JStr "0.9"]> {[ "y" := JStr "2.0" ]}) ]}
                     _ _)).
    + intros n. reflexivity.
    + vm_compute. reflexivity.
    + vm_compute. reflexivity.
    + vm_compute. reflexivity.
  - refine (proj1 (proj2 (proj2 (adaptApp_merges_resolutions demo_env "../target/"
                                   (initial bare_fs) {[ "name" := JStr "root" ]} _ _) _))).
    + intros n. reflexivity.
    + vm_compute. reflexivity.
    + vm_compute. reflexivity.
Defined.

(** The root's [{"x": "1.0"}] over the copy's [{"x": "0.9", "y": "2.0"}]. *)
Example merge_root_over_copy :
  Json.spread2 (Some (JObj (<["x" := JStr "0.9"]> {[ "y" := JStr "2.0" ]})))
    (Some (JObj {[ "x" := JStr "1.0" ]}))
  = <["x" := JStr "1.0"]> {[ "y" := JStr "2.0" ]} /\
  files (adaptApp demo_env "../target/" (initial copied_fs)).2 !! "../target/package.json"
  = Some (JsonText (JObj {[ "resolutions" :=
                              JObj (<["x" := JStr "1.0"]> {[ "y" := JStr "2.0" ]}) ]})).
Proof. split; vm_compute; reflexivity. Qed.

(** ** The extensions that are published *)

Lemma published_app tr1 tr2 : published (tr1 ++ tr2) = published tr1 ++ published tr2.
Proof. apply omap_app. Qed.

Lemma published_cleanup evs : Forall is_cleanup evs -> published evs = [].
Proof.
  induction 1 as [| ev evs Hev _ IH]; [reflexivity |].
  destruct ev; simpl in *; try contradiction; exact IH.
Qed.

Lemma set_add_spec seen x :
  NoDup seen ->
  NoDup (Js.set_add seen x) /\ forall y, y ∈ Js.set_add seen x <-> y ∈ seen \/ y = x.
Proof.
  intros Hnd. unfold Js.set_add. case_bool_decide as Hin.
  - split; [exact Hnd |]. intros y. split; [auto |]. intros [H | ->]; assumption.
  - split.
    + apply NoDup_app. split; [exact Hnd |]. split; [| apply NoDup_singleton].
      intros y Hy Hy'. apply list_elem_of_singleton in Hy'. subst y. contradiction.
    + intros y. rewrite elem_of_app, list_elem_of_singleton. reflexivity.
Qed.

Lemma fold_set_add_spec l : forall seen,
  NoDup seen ->
  NoDup (fold_left Js.set_add l seen) /\
  forall y, y ∈ fold_left Js.set_add l seen <-> y ∈ seen \/ y ∈ l.
Proof.
  induction l as [| x l IH]; intros seen Hnd; simpl.
  - split; [exact Hnd |]. intros y. rewrite elem_of_nil. tauto.
  - destruct (set_add_spec seen x Hnd) as [Hnd' Hmem].
    destruct (IH _ Hnd') as [Hnd'' Hmem'']. split; [exact Hnd'' |].
    intros y. rewrite Hmem'', Hmem, elem_of_cons. tauto.
Qed.

Lemma unique_spec l :
  NoDup (Js.unique l) /\ forall y, y ∈ Js.unique l <-> y ∈ l.
Proof.
  destruct (fold_set_add_spec l [] (NoDup_nil_2)) as [Hnd Hmem].
  split; [exact Hnd |]. intros y. unfold Js.unique. rewrite Hmem, elem_of_nil. tauto.
Qed.

Section Publish.

Variable env : Env.

Lemma require_cases path s :
  (exists doc, require path s = (Return doc, (log (Require path) s).2)) \/
  (exists e, require path s = (Throw e, (log (Require path) s).2)).
Proof.
  unfold require, parse_file, bind, get_files. cbn [log fst snd files].
  destruct (files s !! path) as [[content | doc] |]; [right | left | right]; eauto.
Qed.

Lemma get_prop_cases o key s :
  (exists v, get_prop o key s = (Return v, s)) \/
  (exists e, get_prop o key s = (Throw e, s)).
Proof. destruct o; simpl; [right | left | left | left | left | left]; eauto. Qed.

(** [executeProcess] makes one call of [spawnSync]; the rest is what the
    interrupt listener does while the script is suspended. *)
Lemma executeProcess_trace command argv target debug s :
  exists cl,
    trace (executeProcess env command argv target debug s).2 =
      trace s ++ SpawnSync command argv (stdio_of debug) target :: cl /\
    disposables (executeProcess env command argv target debug s).2 = disposables s /\
    Forall is_cleanup cl.
Proof.
  unfold executeProcess. rewrite bind_eq, await_eq. cbn [spawnSync bind log ret fst snd].
  set (s1 := {| files := files s; running := running s; spawned := spawned s;
                disposables := disposables s;
                trace := trace s ++ [SpawnSync command argv (stdio_of debug) target];
                turn := turn s |}).
  destruct (suspend_ext env s1) as [Hd (cl & Ht & Hcl)].
  exists cl.
  assert (H : forall r : Outcome unit,
            trace (r, suspend env s1).2 =
              trace s ++ SpawnSync command argv (stdio_of debug) target :: cl /\
            disposables (r, suspend env s1).2 = disposables s).
  { intros r. cbn [snd]. rewrite Ht, Hd. subst s1. cbn [trace disposables].
    rewrite <- app_assoc. split; reflexivity. }
  destruct (match signal (spawnSync_result env command argv target) with
            | Some name => Js.truthy_string name
            | None => false
            end).
  - destruct (H (Throw (Error "Aborted."))) as [H1 H2]. repeat split; assumption.
  - destruct (error (spawnSync_result env command argv target)) as [e |].
    + destruct (H (Throw e)) as [H1 H2]. repeat split; assumption.
    + destruct (H (Return tt)) as [H1 H2]. repeat split; assumption.
Qed.

Lemma publish_trace registry debug extensionPath s :
  exists evs,
    trace (publish env registry debug extensionPath s).2 = trace s ++ evs /\
    (published evs = [extensionPath] \/
     (published evs = [] /\ exists e, (publish env registry debug extensionPath s).1 = Throw e)).
Proof.
  unfold publish. rewrite bind_eq.
  destruct (require_cases (extensionPath +:+ "/package.json") s) as [[doc ->] | [e ->]].
  2:{ eexists. split; [reflexivity |]. right. split; [reflexivity | eauto]. }
  rewrite bind_eq.
  destruct (get_prop_cases doc "version" (log (Require (extensionPath +:+ "/package.json")) s).2)
    as [[v ->] | [e ->]].
  2:{ eexists. split; [reflexivity |]. right. split; [reflexivity | eauto]. }
  rewrite await_eq. cbn [snd].
  match goal with
  | |- context [executeProcess env ?c ?a ?t ?d ?s0] =>
      destruct (executeProcess_trace c a t d s0) as (cl & Ht & _ & Hcl);
      destruct (suspend_ext env (executeProcess env c a t d s0).2) as [_ (cl' & Ht' & Hcl')]
  end.
  eexists. split.
  - rewrite Ht', Ht. cbn [log snd trace]. rewrite <- !app_assoc. reflexivity.
  - left. cbn [app]. rewrite !published_app.
    rewrite (published_cleanup cl') by exact Hcl'.
    cbn [published omap]. simpl.
    change (omap _ cl) with (published cl).
    rewrite (published_cleanup cl) by exact Hcl. reflexivity.
Qed.

Lemma for_of_publish_trace registry debug l : forall s,
  exists evs,
    trace (for_of l (publish env registry debug) s).2 = trace s ++ evs /\
    published evs `prefix_of` l /\
    ((exists e, (for_of l (publish env registry debug) s).1 = Throw e) \/
     published evs = l).
Proof.
  induction l as [| p l IH]; intros s.
  - exists []. split; [symmetry; apply app_nil_r |]. split; [reflexivity | right; reflexivity].
  - cbn [for_of]. rewrite bind_eq.
    destruct (publish_trace registry debug p s) as (evs1 & Ht1 & Hp1).
    destruct (publish env registry debug p s) as [[[] | e] s1]; cbn [fst snd] in *.
    + destruct Hp1 as [Hp1 | [_ [e He]]]; [| discriminate].
      destruct (IH s1) as (evs2 & Ht2 & Hpre & Hres).
      exists (evs1 ++ evs2). split; [rewrite Ht2, Ht1, app_assoc; reflexivity |].
      rewrite published_app, Hp1. split.
      * apply (prefix_app [p]). exact Hpre.
      * destruct Hres as [Hthrow | ->]; [left; exact Hthrow | right; reflexivity].
    + exists evs1. split; [exact Ht1 |]. split; [| left; eauto].
      destruct Hp1 as [-> | [-> _]].
      * exists l. reflexivity.
      * apply prefix_nil.
Qed.

End Publish.

(** C6. The paths that are published are the matches of all the include
    patterns, each one once; in every run of [publishExtensions] the
    [yarn publish] calls go through the beginning of this list, one call for
    each path, and through all of it unless a call throws. *)
Theorem publish_each_match_once (env : Env) (includes ignores : list string) :
  let paths := uniquePaths env includes ignores in
  NoDup paths /\
  (forall p, p ∈ paths <-> exists pattern, pattern ∈ includes /\ p ∈ glob_sync env pattern ignores) /\
  forall (registry : string) (debug : bool) (s : State),
    exists evs,
      trace (publishExtensions env registry includes ignores debug s).2 = trace s ++ evs /\
      published evs `prefix_of` paths /\
      ((exists e, (publishExtensions env registry includes ignores debug s).1 = Throw e) \/
       published evs = paths).
Proof.
  cbv zeta. unfold uniquePaths.
  destruct (unique_spec
              (flat_map (fun pattern => glob_sync env pattern ignores) includes))
    as [Hnd Hmem].
  split; [exact Hnd |]. split.
  - intros p. rewrite Hmem, list_elem_of_In, in_flat_map. split.
    + intros (pattern & H1 & H2). exists pattern. rewrite !list_elem_of_In. auto.
    + intros (pattern & H1 & H2). exists pattern. rewrite <- !list_elem_of_In. auto.
  - intros registry debug s. apply for_of_publish_trace.
Qed.

Lemma publish_each_match_once_witness :
  "/work/theia-extensions/a"
    ∈ uniquePaths demo_env (includeExtensions overlapping_args) (excludeExtensions overlapping_args).
Proof.
  apply (proj1 (proj2 (publish_each_match_once demo_env (includeExtensions overlapping_args)
                         (excludeExtensions overlapping_args)))).
  exists "theia-extensions/a". split; [right; left | left].
Defined.

(** The two patterns both match the first extension; it is in the list
    once, and it is published once. *)
Example overlapping_patterns_publish_once :
  uniquePaths demo_env (includeExtensions overlapping_args) (excludeExtensions overlapping_args)
    = ["/work/theia-extensions/a"; "/work/theia-extensions/b"] /\
  published (trace (script demo_env overlapping_args demo_fs).2)
    = ["/work/theia-extensions/a"; "/work/theia-extensions/b"].
Proof. split; vm_compute; reflexivity. Qed.

(** ** Waiting for the registry *)

Section Readiness.

Variable env : Env.
Variable args : Args.





End Readiness.



(** ** Fatal child processes *)

Section Invariant.

Variable env : Env.
Variables Good Bad : list Event -> Prop.
Hypothesis Good_Bad : forall tr, Good tr -> Bad tr.
Hypothesis Good_cleanup : forall tr cl, Good tr -> Forall is_cleanup cl -> Good (tr ++ cl).
Hypothesis Bad_cleanup : forall tr cl, Bad tr -> Forall is_cleanup cl -> Bad (tr ++ cl).

Lemma holds_ret {A} (a : A) : holds Good Bad (ret a).
Proof. intros s H. exact H. Qed.

Lemma holds_throw {A} (e : Exn) : holds Good Bad (@throw A e).
Proof. intros s H. apply Good_Bad, H. Qed.

Lemma holds_push d : holds Good Bad (push d).
Proof. intros s H. exact H. Qed.

Lemma holds_bind {A B} (m : M A) (k : A -> M B) :
  holds Good Bad m -> (forall a, holds Good Bad (k a)) -> holds Good Bad (bind m k).
Proof.
  intros Hm Hk s H. unfold bind. specialize (Hm s H).
  destruct (m s) as [[a | e] s']; [apply Hk, Hm | exact Hm].
Qed.

Lemma holds_await {A} (m : M A) : holds Good Bad m -> holds Good Bad (await env m).
Proof.
  intros Hm s H. unfold await. specialize (Hm s H).
  destruct (suspend_ext env (m s).2) as [_ (cl & Ht & Hcl)].
  destruct (m s) as [[a | e] s']; cbn [snd] in *; rewrite Ht.
  - apply Good_cleanup; assumption.
  - apply Bad_cleanup; assumption.
Qed.

Lemma holds_for_of {A} (l : list A) (body : A -> M unit) :
  (forall x, holds Good Bad (body x)) -> holds Good Bad (for_of l body).
Proof.
  intros Hbody. induction l as [| x l IH]; simpl.
  - apply holds_ret.
  - apply holds_bind; [apply Hbody | intros _; exact IH].
Qed.

Lemma holds_acts {A} (phi : Event -> Prop) (m : M A) :
  (forall tr evs, Good tr -> Forall phi evs -> Good (tr ++ evs)) ->
  acts anything (Forall phi) m -> holds Good Bad m.
Proof.
  intros Hphi Hm s H. destruct (Hm s Logic.I) as [_ (evs & Ht & Hevs)].
  destruct (m s) as [[a | e] s']; cbn [snd] in *; rewrite Ht.
  - apply Hphi; assumption.
  - apply Good_Bad, Hphi; assumption.
Qed.

End Invariant.

Section Fatal.

Variable env : Env.

Lemma cleanup_harmless ev : is_cleanup ev -> harmless env ev.
Proof. destruct ev; simpl; try contradiction; intros _ H; exact H. Qed.

Lemma no_fatal_sealed tr : no_fatal env tr -> sealed env tr.
Proof.
  induction 1 as [| ev tr Hev _ IH]; simpl; [exact I |].
  split; [intros H; contradiction | exact IH].
Qed.

Lemma no_fatal_app tr evs : no_fatal env tr -> Forall (harmless env) evs -> no_fatal env (tr ++ evs).
Proof. intros H1 H2. apply Forall_app; split; assumption. Qed.

Lemma no_fatal_cleanup tr cl :
  no_fatal env tr -> Forall is_cleanup cl -> no_fatal env (tr ++ cl).
Proof.
  intros H1 H2. apply no_fatal_app; [exact H1 |].
  eapply Forall_impl; [exact H2 | apply cleanup_harmless].
Qed.

Lemma sealed_cleanup tr cl : sealed env tr -> Forall is_cleanup cl -> sealed env (tr ++ cl).
Proof.
  intros H Hcl. induction tr as [| ev tr IH]; simpl in *.
  - apply no_fatal_sealed. eapply Forall_impl; [exact Hcl | apply cleanup_harmless].
  - destruct H as [H1 H2]. split; [| apply IH, H2].
    intros Hev. apply Forall_app; split; [apply H1, Hev | exact Hcl].
Qed.

Lemma sealed_last tr ev cl :
  no_fatal env tr -> Forall is_cleanup cl -> sealed env (tr ++ ev :: cl).
Proof.
  intros H Hcl. induction H as [| ev' tr Hev' _ IH]; simpl.
  - split; [intros _; exact Hcl |].
    apply no_fatal_sealed. eapply Forall_impl; [exact Hcl | apply cleanup_harmless].
  - split; [intros Hbad; contradiction | exact IH].
Qed.

Lemma sealed_split pre ev post :
  sealed env (pre ++ ev :: post) -> is_fatal env ev -> Forall is_cleanup post.
Proof.
  induction pre as [| ev' pre IH]; simpl; intros [H1 H2] Hev.
  - apply H1, Hev.
  - apply IH; assumption.
Qed.

Lemma suspend_harmless s :
  anything (disposables s) -> ext (Forall (harmless env)) s (suspend env s).
Proof.
  intros _. eapply ext_mono; [| apply suspend_ext]. intros evs H.
  eapply Forall_impl; [exact H | apply cleanup_harmless].
Qed.

Ltac harmless_tac :=
  intros; apply Forall_singleton; unfold harmless; simpl; tauto.

Local Abbreviation safe := (holds (no_fatal env) (sealed env)).

Lemma safe_acts {A} (m : M A) : acts anything (Forall (harmless env)) m -> safe m.
Proof.
  apply holds_acts; [apply no_fatal_sealed | apply no_fatal_app].
Qed.

Lemma safe_executeProcess command argv target debug :
  safe (executeProcess env command argv target debug).
Proof.
  intros s H.
  destruct (executeProcess_trace env command argv target debug s) as (cl & Ht & _ & Hcl).
  pose proof (executeProcess_result env command argv target debug s) as Hres.
  cbv zeta in Hres.
  destruct (executeProcess env command argv target debug s) as [[[] | e] s'];
    cbn [fst snd] in *; rewrite Ht.
  - apply no_fatal_app; [exact H |]. constructor.
    + unfold harmless, is_fatal, fatal.
      destruct (by_signal _); [discriminate |].
      destruct (error _); [discriminate |]. simpl. discriminate.
    + eapply Forall_impl; [exact Hcl | apply cleanup_harmless].
  - apply sealed_last; assumption.
Qed.

Lemma safe_bind {A B} (m : M A) (k : A -> M B) :
  safe m -> (forall a, safe (k a)) -> safe (bind m k).
Proof. apply holds_bind. Qed.

Lemma safe_await {A} (m : M A) : safe m -> safe (await env m).
Proof. apply holds_await; [apply no_fatal_cleanup | apply sealed_cleanup]. Qed.

Lemma safe_publish registry debug extensionPath :
  safe (publish env registry debug extensionPath).
Proof.
  unfold publish. apply safe_bind.
  - apply safe_acts. unfold require.
    apply acts_bind; [exact _ | apply acts_log | intros _; apply acts_parse_file; exact _].
    harmless_tac.
  - intros doc. apply safe_bind; [apply safe_acts, acts_get_prop; exact _ |].
    intros v. apply safe_await, safe_executeProcess.
Qed.

Lemma safe_later_steps args : safe (later_steps env args).
Proof.
  unfold later_steps.
  repeat (apply safe_bind; [| intros _]); apply safe_await.
  - unfold publishExtensions. apply holds_for_of. intros p. apply safe_publish.
  - apply safe_acts, acts_copyApp; try exact _; try apply suspend_harmless; harmless_tac.
  - apply safe_acts, acts_adaptApp; try exact _; try apply suspend_harmless; harmless_tac.
  - unfold buildApp. apply safe_await, safe_executeProcess.
  - unfold minifyApp. apply safe_bind; [| intros _]; apply safe_await, safe_executeProcess.
Qed.

Lemma safe_steps args : safe (steps env args).
Proof.
  rewrite steps_eq. apply safe_bind.
  - apply safe_acts, acts_await; try exact _; try apply suspend_harmless.
    apply acts_startVerdaccio; try exact _; try apply suspend_harmless; harmless_tac.
  - intros d. unfold after_verdaccio. apply safe_bind; [intros s H; exact H | intros _].
    apply safe_bind.
    + apply safe_acts, acts_await; try exact _; try apply suspend_harmless.
      apply acts_createNpmrcFile; [exact _ |].
      intros []; try exact I; harmless_tac.
    + intros d'. apply safe_bind; [intros s H; exact H | intros _].
      apply safe_later_steps.
Qed.

(** A run that returns made no fatal call; in any run, a fatal call is
    followed by interrupts and disposals only. *)
Lemma script_sealed args fs :
  sealed env (trace (script env args fs).2) /\
  ((script env args fs).1 = Return tt -> no_fatal env (trace (script env args fs).2)).
Proof.
  rewrite script_eq. cbn [fst snd]. unfold execute. rewrite bind_eq.
  set (s1 := (set_disposables [] (initial fs)).2).
  change (set_disposables [] (initial fs)) with (Return tt, s1). cbv iota.
  pose proof (safe_steps args s1 (Forall_nil_2 _)) as Hsteps.
  unfold try_finally.
  destruct (steps env args s1) as [r s2].
  destruct (cleanup_spec s2) as (Hr & Ht' & _ & _).
  destruct (cleanup s2) as [r' s3]; cbn [fst snd] in *. subst r'.
  destruct (suspend_ext env s3) as [_ (cl & Htc & Hcl)].
  cbn [fst snd]. rewrite Htc, Ht'.
  destruct r as [[] | e].
  - assert (H : no_fatal env ((trace s2 ++ map Dispose (disposables s2)) ++ cl)).
    { apply no_fatal_cleanup; [| exact Hcl].
      apply no_fatal_cleanup; [exact Hsteps | apply Forall_cleanup_disposals]. }
    split; [apply no_fatal_sealed, H | intros _; exact H].
  - split; [| discriminate].
    apply sealed_cleanup; [| exact Hcl].
    apply sealed_cleanup; [exact Hsteps | apply Forall_cleanup_disposals].
Qed.

End Fatal.

(** C2, as amended. In every run, when a [spawnSync] call (a publish call in
    particular) returns with a signal or with a launch error, the script
    throws, and after that call nothing is called but the interrupt listener
    and the disposals: no further package is published and no later step
    runs. *)
Theorem fatal_publish_aborts (env : Env) (args : Args) (fs : gmap string FileData)
    (pre post : list Event) (command : string) (argv : list value) (stdio : option string)
    (cwd : string) :
  trace (script env args fs).2 = pre ++ SpawnSync command argv stdio cwd :: post ->
  fatal (spawnSync_result env command argv cwd) = true ->
  (exists e, (script env args fs).1 = Throw e) /\ Forall is_cleanup post.
Proof.
  intros Hsplit Hfatal. destruct (script_sealed env args fs) as [Hsealed Hret]. split.
  - destruct (script env args fs).1 as [[] | e] eqn:E; [| eauto].
    specialize (Hret eq_refl). rewrite Hsplit in Hret.
    apply Forall_app in Hret as [_ Hret]. inversion Hret as [| ? ? Hbad _].
    exfalso. apply Hbad. exact Hfatal.
  - rewrite Hsplit in Hsealed. eapply sealed_split; [exact Hsealed | exact Hfatal].
Qed.

Lemma fatal_publish_aborts_witness :
  (exists e, (script aborted_env default_args demo_fs).1 = Throw e) /\
  Forall is_cleanup
    [Dispose (VerdaccioDisposable 0 "/work/verdaccio-storage"); Dispose (NpmrcDisposable RemoveFile)].
Proof.
  apply (fatal_publish_aborts aborted_env default_args demo_fs aborted_prefix
           [Dispose (VerdaccioDisposable 0 "/work/verdaccio-storage"); Dispose (NpmrcDisposable RemoveFile)]
           "yarn" (publish_argv "1.0.0") None "/work/theia-extensions/a").
  - vm_compute. reflexivity.
  - reflexivity.
Defined.

(** C2 fails as stated: the publication of the first extension exits with
    status 1, without signal and without error; the script goes on, publishes
    the second extension, runs the later steps in the output directory and
    returns. *)
Lemma nonzero_publish_continues :
  spawnSync_result failing_env "yarn" (publish_argv "1.0.0") "/work/theia-extensions/a"
    = exited 1 /\
  (script failing_env default_args demo_fs).1 = Return tt /\
  published (trace (script failing_env default_args demo_fs).2)
    = ["/work/theia-extensions/a"; "/work/theia-extensions/b"] /\
  spawnSync_dirs (trace (script failing_env default_args demo_fs).2)
    = ["/work/theia-extensions/a"; "/work/theia-extensions/b";
       "../target/"; "../target/"; "../target/"].
Proof. repeat split; vm_compute; reflexivity. Qed.

(** * Further properties *)

(** ** The arguments of the registry, when both options are given *)










(** ** The credential file, as written *)

Lemma replace_scheme port :
  Js.replace "http:" "" (registry_of port) = "//localhost:" +:+ Js.number_to_string port.
Proof. reflexivity. Qed.

(** X2. For the registry of any port, [createNpmrcFile] either returns,
    and then the credential file holds the token line for
    [//localhost:<port>/] (the [http:] of the registry is gone) and no other
    file, child or handle has changed; or throws, which happens exactly when
    there is a directory of that name (something exists at the path and it
    is no file): then the error is [EISDIR] and the file system is as it
    was. *)
Theorem createNpmrcFile_writes_token (port : Z) (s : State) :
  match createNpmrcFile (registry_of port) s with
  | (Return _, s') =>
      (Fs.exists_ ".npmrc" (files s) = true -> is_Some (files s !! ".npmrc")) /\
      files s' = <[".npmrc" := token_line port]> (files s) /\
      running s' = running s /\ disposables s' = disposables s
  | (Throw e, s') =>
      e = SystemError "EISDIR" ".npmrc" /\
      files s !! ".npmrc" = None /\ Fs.exists_ ".npmrc" (files s) = true /\
      files s' = files s
  end.
Proof.
  unfold createNpmrcFile, existsSync, readFileSync, writeFileSync, bind, token_line.
  rewrite replace_scheme. simpl.
  destruct (Fs.exists_ ".npmrc" (files s)) eqn:E; simpl.
  - destruct (files s !! ".npmrc") as [data |] eqn:L; simpl.
    + split; [intros _; eauto | repeat split].
    + rewrite E. repeat split.
  - split; [discriminate | repeat split].
Qed.

(** ** What a disposal does *)

Lemma remove_lookup p (fs : gmap string FileData) k :
  Fs.remove p fs !! k = if Fs.within p k then None else fs !! k.
Proof.
  unfold Fs.remove. destruct (Fs.within p k) eqn:E.
  - apply map_lookup_filter_None. right. intros data _. simpl. rewrite E. discriminate.
  - destruct (fs !! k) as [data |] eqn:L.
    + apply map_lookup_filter_Some. split; [exact L | exact E].
    + apply map_lookup_filter_None. left. exact L.
Qed.

Lemma exists_false_iff p (fs : gmap string FileData) :
  Fs.exists_ p fs = false <-> forall k data, fs !! k = Some data -> Fs.within p k = false.
Proof.
  unfold Fs.exists_. rewrite bool_decide_eq_false. split.
  - intros H k data L. destruct (Fs.within p k) eqn:E; [| reflexivity].
    exfalso. apply H. intros Hempty.
    assert (Hl : filter (fun kv : string * FileData => Fs.within p kv.1 = true) fs !! k
                 = Some data) by (apply map_lookup_filter_Some; split; assumption).
    rewrite Hempty, lookup_empty in Hl. discriminate.
  - intros H Hne. apply Hne. apply map_empty_filter. intros k data L. simpl.
    rewrite (H k data L). discriminate.
Qed.


Lemma remove_remove p (fs : gmap string FileData) : Fs.remove p (Fs.remove p fs) = Fs.remove p fs.
Proof.
  apply map_eq. intros k. rewrite !remove_lookup. destruct (Fs.within p k); reflexivity.
Qed.


(** X4. Disposing a handle a second time changes nothing: the files and the
    running children are as after the first disposal. *)
Theorem dispose_twice_is_dispose_once (d : Disposable) (s : State) :
  files (dispose d (dispose d s).2).2 = files (dispose d s).2 /\
  running (dispose d (dispose d s).2).2 = running (dispose d s).2.
Proof.
  destruct d as [h dir | [content |]]; simpl.
  - split; [apply remove_remove |].
    rewrite list_filter_filter. apply list_filter_iff. tauto.
  - split; [apply insert_insert_eq | reflexivity].
  - split; [apply remove_remove | reflexivity].
Qed.

(** ** The order of the publications *)

Lemma fold_set_add_sublist l : forall seen,
  exists kept, fold_left Js.set_add l seen = seen ++ kept /\ kept `sublist_of` l.
Proof.
  induction l as [| x l IH]; intros seen; simpl.
  - exists []. split; [symmetry; apply app_nil_r | constructor].
  - unfold Js.set_add at 2. case_bool_decide.
    + destruct (IH seen) as (kept & -> & Hsub). exists kept.
      split; [reflexivity | apply sublist_cons, Hsub].
    + destruct (IH (seen ++ [x])) as (kept & -> & Hsub). exists (x :: kept).
      split; [rewrite <- app_assoc; reflexivity | apply sublist_skip, Hsub].
Qed.

Lemma fold_set_add_fresh l : forall seen,
  NoDup (seen ++ l) -> fold_left Js.set_add l seen = seen ++ l.
Proof.
  induction l as [| x l IH]; intros seen Hnd; simpl.
  - symmetry. apply app_nil_r.
  - unfold Js.set_add at 2. case_bool_decide as Hin.
    + apply NoDup_app in Hnd as (_ & Hdisj & _). exfalso.
      apply (Hdisj x Hin). left.
    + rewrite IH; rewrite <- app_assoc; [reflexivity | exact Hnd].
Qed.

(** X5. The paths are published in the order in which the include patterns
    match them: the list of the publishing loop is the list of all matches
    with some of them left out, and it is that list itself when no path is
    matched twice. *)
Theorem publish_order_is_match_order (env : Env) (includes ignores : list string) :
  let matches := flat_map (fun pattern => glob_sync env pattern ignores) includes in
  uniquePaths env includes ignores `sublist_of` matches /\
  (NoDup matches -> uniquePaths env includes ignores = matches).
Proof.
  cbv zeta. unfold uniquePaths, Js.unique. split.
  - destruct (fold_set_add_sublist
                (flat_map (fun pattern => glob_sync env pattern ignores) includes) [])
      as (kept & -> & Hsub). exact Hsub.
  - intros Hnd. apply (fold_set_add_fresh _ []). exact Hnd.
Qed.

Lemma publish_order_is_match_order_witness :
  uniquePaths demo_env (includeExtensions default_args) (excludeExtensions default_args)
  = flat_map (fun pattern => glob_sync demo_env pattern (excludeExtensions default_args))
      (includeExtensions default_args).
Proof.
  apply (proj2 (publish_order_is_match_order demo_env (includeExtensions default_args)
                  (excludeExtensions default_args))).
  apply (bool_decide_unpack _). vm_compute. reflexivity.
Defined.

(** ** A matched directory without manifest *)

Section MissingManifest.

Variable env : Env.
Hypothesis Hquiet : quiet env.

Lemma executeProcess_quiet_files command argv target debug s :
  files (executeProcess env command argv target debug s).2 = files s.
Proof.
  unfold executeProcess. rewrite bind_eq, (await_quiet env) by exact Hquiet.
  cbn [spawnSync bind log ret fst snd].
  destruct (match signal _ with Some name => Js.truthy_string name | None => false end);
    [reflexivity |].
  destruct (error _); reflexivity.
Qed.

Lemma publish_quiet_files registry debug extensionPath s :
  files (publish env registry debug extensionPath s).2 = files s.
Proof.
  unfold publish. rewrite bind_eq.
  destruct (require_cases (extensionPath +:+ "/package.json") s) as [[doc ->] | [e ->]];
    [| reflexivity].
  rewrite bind_eq.
  destruct (get_prop_cases doc "version" (log (Require (extensionPath +:+ "/package.json")) s).2)
    as [[v ->] | [e ->]]; [| reflexivity].
  rewrite (await_quiet env) by exact Hquiet. cbn [snd next_turn files].
  rewrite executeProcess_quiet_files. reflexivity.
Qed.

Lemma publish_without_manifest registry debug extensionPath s :
  files s !! (extensionPath +:+ "/package.json") = None ->
  publish env registry debug extensionPath s =
    (Throw (SystemError "ENOENT" (extensionPath +:+ "/package.json")),
     (log (Require (extensionPath +:+ "/package.json")) s).2).
Proof.
  intros H. unfold publish, require, parse_file, bind, get_files.
  cbn [log fst snd files]. rewrite H. reflexivity.
Qed.

Lemma for_of_publish_without_manifest registry debug p l : forall s,
  p ∈ l ->
  files s !! (p +:+ "/package.json") = None ->
  (exists e, (for_of l (publish env registry debug) s).1 = Throw e) /\
  exists evs,
    trace (for_of l (publish env registry debug) s).2 = trace s ++ evs /\
    p ∉ published evs.
Proof.
  induction l as [| q l IH]; intros s Hin Hnone.
  - apply elem_of_nil in Hin. contradiction.
  - cbn [for_of]. rewrite bind_eq. destruct (decide (q = p)) as [-> | Hne].
    + rewrite (publish_without_manifest _ _ _ _ Hnone). split; [eauto |].
      exists [Require (p +:+ "/package.json")]. split; [reflexivity |].
      simpl. apply not_elem_of_nil.
    + apply elem_of_cons in Hin as [-> | Hin]; [contradiction |].
      destruct (publish_trace env registry debug q s) as (evs1 & Ht1 & Hp1).
      pose proof (publish_quiet_files registry debug q s) as Hf.
      assert (Hq : p ∉ published evs1).
      { destruct Hp1 as [-> | [-> _]]; [| apply not_elem_of_nil].
        intros H. apply list_elem_of_singleton in H. congruence. }
      destruct (publish env registry debug q s) as [[[] | e] s1]; cbn [fst snd] in *.
      * destruct (IH s1 Hin) as [Hthrow (evs2 & Ht2 & Hp2)]; [rewrite Hf; exact Hnone |].
        split; [exact Hthrow |]. exists (evs1 ++ evs2).
        split; [rewrite Ht2, Ht1, app_assoc; reflexivity |].
        rewrite published_app, elem_of_app. tauto.
      * split; [eauto |]. exists evs1. split; [exact Ht1 | exact Hq].
Qed.

End MissingManifest.

(** X6. No interrupt being handled: when one of the matched directories has
    no [package.json], [publishExtensions] throws, whatever the other
    publications do, and [yarn publish] is never called in that
    directory. *)
Theorem missing_manifest_stops_publishing (env : Env) (registry : string)
    (includes ignores : list string) (debug : bool) (p : string) (s : State) :
  quiet env ->
  p ∈ uniquePaths env includes ignores ->
  files s !! (p +:+ "/package.json") = None ->
  (exists e, (publishExtensions env registry includes ignores debug s).1 = Throw e) /\
  exists evs,
    trace (publishExtensions env registry includes ignores debug s).2 = trace s ++ evs /\
    p ∉ published evs.
Proof.
  intros Hq Hin Hnone. unfold publishExtensions.
  apply for_of_publish_without_manifest; assumption.
Qed.

(** ** The calls of a run *)

(** X7. Every call of every run is one of the calls of the steps, for the
    options of the run, or belongs to the interrupt listener and the
    disposals: the only command spawned is [verdaccio], with the storage
    path resolved and passed as [VERDACCIO_STORAGE_PATH]; the only command
    run to its end is [yarn], to publish in a matched directory or to
    install and clean in the output directory, with the registry of the
    port; the only file written is the credential file, the only JSON
    written is the manifest of the copy, and only the output directory is
    removed. *)
Theorem run_makes_only_the_listed_calls (env : Env) (args : Args) (fs : gmap string FileData) :
  Forall (step_or_cleanup env args) (trace (script env args fs).2).
Proof.
  rewrite script_eq. cbn [fst snd].
  destruct (execute_any env args (initial fs)) as (ds & evs & _ & _ & Ht & Hevs).
  destruct (suspend_ext env (execute env args (initial fs)).2) as [_ (post & Ht' & Hpost)].
  rewrite Ht', Ht. simpl. repeat apply Forall_app_2.
  - exact Hevs.
  - eapply Forall_impl; [apply Forall_cleanup_disposals |]. intros ev H. right. exact H.
  - eapply Forall_impl; [exact Hpost |]. intros ev H. right. exact H.
Qed.

(** ** The registry at the end of a run *)

Section EndOfRun.

Variable env : Env.

Lemma same_world_refl s : same_world s s.
Proof. repeat split. Qed.

Lemma same_world_trans s1 s2 s3 : same_world s1 s2 -> same_world s2 s3 -> same_world s1 s3.
Proof. intros (A1 & B1 & C1 & D1) (A2 & B2 & C2 & D2). repeat split; congruence. Qed.

Lemma on_sigint_idle s : disposables s = [] -> same_world s (on_sigint s).2.
Proof.
  intros Hnil. unfold on_sigint, cleanup, bind, get_disposables. cbn [log fst snd disposables].
  rewrite Hnil. cbn [for_of ret snd].
  split; [reflexivity | split; [reflexivity | split; [symmetry; exact Hnil |]]].
  cbn [trace]. rewrite disposed_app. simpl. apply app_nil_r.
Qed.

Lemma handle_signals_idle n s : disposables s = [] -> same_world s (handle_signals n s).
Proof.
  intros Hnil. induction n as [| n IH]; simpl; [apply same_world_refl |].
  eapply same_world_trans; [exact IH |]. apply on_sigint_idle.
  destruct IH as (_ & _ & -> & _). exact Hnil.
Qed.

(** While no handle is registered a suspension changes nothing. *)
Lemma suspend_idle s : disposables s = [] -> same_world s (suspend env s).
Proof.
  intros Hnil. unfold suspend.
  eapply same_world_trans; [| apply handle_signals_idle; exact Hnil].
  repeat split.
Qed.

Lemma startVerdaccio_world config port storage debug s :
  exists s1,
    files s1 = files s /\ running s1 = running s ++ [spawned s] /\
    disposables s1 = disposables s /\ disposed (trace s1) = disposed (trace s) /\
    startVerdaccio env config port storage debug s =
    (match waitPort_result env port with
     | PortOpen => Return (VerdaccioDisposable (spawned s) (path_resolve env storage))
     | WaitFailed e => Throw e
     end, suspend env s1).
Proof.
  unfold startVerdaccio, spawn, waitPort, await, bind. cbn [log start_child fst snd].
  eexists. split; [| split; [| split; [| split]]]; cycle 4.
  - destruct (waitPort_result env port); reflexivity.
  - reflexivity.
  - reflexivity.
  - reflexivity.
  - cbn [trace]. rewrite !disposed_app. simpl. rewrite !app_nil_r. reflexivity.
Qed.








Variable args : Args.


Lemma execute_eq s0 :
  execute env args s0 =
  ((steps env args (set_disposables [] s0).2).1,
   (for_of (disposables (steps env args (set_disposables [] s0).2).2) invoke
      (steps env args (set_disposables [] s0).2).2).2).
Proof.
  unfold execute. unfold bind at 1. cbn [set_disposables fst snd]. unfold try_finally.
  destruct (steps env args _) as [r s2]. cbn [fst snd].
  destruct (cleanup_spec s2) as (Hr & _).
  unfold cleanup, bind, get_disposables in *. cbn [fst snd] in *.
  destruct (for_of (disposables s2) invoke s2) as [r' s3]. cbn [fst snd] in *.
  subst r'. reflexivity.
Qed.

End EndOfRun.


(** ** A wait that fails *)

Section FailedWait.

Variable env : Env.
Variable args : Args.

(** The run when the wait for the port fails. *)
Lemma failed_wait_world fs e :
  waitPort_result env (verdaccioPort args) = WaitFailed e ->
  (script env args fs).1 = Throw e /\
  files (script env args fs).2 = fs /\
  running (script env args fs).2 = [0] /\
  disposables (script env args fs).2 = [] /\
  disposed (trace (script env args fs).2) = [].
Proof.
  intros Hfail. rewrite script_eq, execute_eq. cbn [fst snd].
  set (s0 := (set_disposables [] (initial fs)).2).
  rewrite steps_eq, bind_eq, await_eq.
  destruct (startVerdaccio_world env (verdaccioConfig args) (verdaccioPort args)
              (verdaccioStorage args) (debug args) s0) as (s1 & Hf & Hr & Hd & Ht & ->).
  rewrite Hfail. cbn [fst snd].
  change (disposables s1 = []) in Hd. change (files s1 = fs) in Hf.
  change (running s1 = [0]) in Hr. change (disposed (trace s1) = []) in Ht.
  assert (W : same_world s1 (suspend env (suspend env (suspend env s1)))).
  { assert (W1 := suspend_idle env s1 Hd).
    assert (W2 : same_world s1 (suspend env (suspend env s1))).
    { eapply same_world_trans; [exact W1 |]. apply suspend_idle.
      destruct W1 as (_ & _ & -> & _). exact Hd. }
    eapply same_world_trans; [exact W2 |]. apply suspend_idle.
    destruct W2 as (_ & _ & -> & _). exact Hd. }
  assert (Hd2 : disposables (suspend env (suspend env s1)) = []).
  { destruct (suspend_ext env s1) as [Ha _].
    destruct (suspend_ext env (suspend env s1)) as [Hb _]. congruence. }
  rewrite Hd2. cbn [for_of ret snd].
  destruct W as (Wf & Wr & Wd & Wt).
  split; [reflexivity |]. rewrite Wf, Wr, Wd, Wt. repeat split; assumption.
Qed.

End FailedWait.

(** X9. When the wait for the port fails, the run ends with the error of
    the wait, the registry that was spawned is still running, no handle was
    registered and no disposal was called, whatever interrupts arrived; the
    files are as before the run. *)
Theorem registry_left_running_after_failed_wait (env : Env) (args : Args)
    (fs : gmap string FileData) (e : Exn) :
  waitPort_result env (verdaccioPort args) = WaitFailed e ->
  (script env args fs).1 = Throw e /\
  running (script env args fs).2 = [0] /\
  disposables (script env args fs).2 = [] /\
  disposed (trace (script env args fs).2) = [] /\
  files (script env args fs).2 = fs.
Proof.
  intros Hfail.
  destruct (failed_wait_world env args fs e Hfail) as (H1 & H2 & H3 & H4 & H5).
  repeat split; assumption.
Qed.

(** ** The credential file at the end of a run *)

Section CredentialFile.

Variable env : Env.






Variable args : Args.


End CredentialFile.


(** ** The copy of the app *)

Lemma startsWith_append p r : Js.startsWith (p +:+ r) p = true.
Proof.
  induction p as [| a p IH]; simpl; [destruct r; reflexivity |].
  rewrite Ascii.eqb_refl. exact IH.
Qed.

Lemma startsWith_trans k : forall p q,
  Js.startsWith k p = true -> Js.startsWith p q = true -> Js.startsWith k q = true.
Proof.
  induction k as [| c k IH]; intros [| a p] [| b q] H1 H2; simpl in *;
    try reflexivity; try discriminate.
  destruct (Ascii.eqb a c) eqn:E1; [| discriminate].
  destruct (Ascii.eqb b a) eqn:E2; [| discriminate].
  apply Ascii.eqb_eq in E1, E2. subst. rewrite Ascii.eqb_refl. eapply IH; eassumption.
Qed.

Lemma startsWith_refl p : Js.startsWith p p = true.
Proof. induction p as [| a p IH]; simpl; [reflexivity |]. rewrite Ascii.eqb_refl. exact IH. Qed.

Lemma as_dir_startsWith p : Js.startsWith (Fs.as_dir p) p = true.
Proof.
  unfold Fs.as_dir. destruct (Js.endsWith p "/"); [apply startsWith_refl |].
  apply startsWith_append.
Qed.

(** What lies within a path that lies within [p] lies within [p]. *)
Lemma within_trans p q k :
  Fs.within p q = true -> Fs.within q k = true -> Fs.within p k = true.
Proof.
  unfold Fs.within. rewrite !orb_true_iff, !String.eqb_eq.
  intros [-> | Hq] [-> | Hk]; auto.
  right. eapply startsWith_trans; [exact Hk |].
  eapply startsWith_trans; [apply as_dir_startsWith | exact Hq].
Qed.




Lemma exists_below p (fs : gmap string FileData) k data :
  fs !! k = Some data -> Fs.within p k = true -> Fs.exists_ p fs = true.
Proof.
  intros L W. destruct (Fs.exists_ p fs) eqn:E; [reflexivity |].
  rewrite (proj1 (exists_false_iff p fs) E k data L) in W. discriminate.
Qed.



Section CopyApp.

Variable env : Env.
Hypothesis Hquiet : quiet env.

Lemma removeSync_eq path s :
  removeSync path s =
  (Return tt, (set_files (Fs.remove path (files s)) (log (RemoveSync path) s).2).2).
Proof. reflexivity. Qed.

Lemma copyApp_missing app target s :
  Fs.exists_ app (Fs.remove target (files s)) = false ->
  exists s', copyApp env app target s = (Throw (SystemError "ENOENT" app), s') /\
    files s' = Fs.remove target (files s) /\
    trace s' = trace s ++ [RemoveSync target; CopySync app target].
Proof.
  intros Hex. unfold copyApp. rewrite bind_eq, (await_quiet env) by exact Hquiet.
  rewrite removeSync_eq. cbn [fst snd].
  rewrite bind_eq, (await_quiet env) by exact Hquiet.
  unfold copySync. cbn [bind log get_files set_files fst snd next_turn files].
  destruct (Fs.remove target (files s) !! app) as [data |] eqn:L.
  - apply exists_file in L. congruence.
  - rewrite Hex. cbn [throw fst snd]. eexists. split; [reflexivity |].
    simpl. rewrite <- app_assoc. split; reflexivity.
Qed.


End CopyApp.

(** X11. No interrupt being handled: when there is nothing at the path of
    the app, or the app lies inside the output directory, [copyApp] removes
    the output directory and then throws the ENOENT of the copy: the output
    directory stays removed, no other file changes, and the lock file is
    not copied. *)
Theorem copyApp_without_app (env : Env) (app target : string) (s : State) :
  quiet env ->
  Fs.exists_ app (files s) = false \/ Fs.within target app = true ->
  (copyApp env app target s).1 = Throw (SystemError "ENOENT" app) /\
  files (copyApp env app target s).2 = Fs.remove target (files s) /\
  trace (copyApp env app target s).2 = trace s ++ [RemoveSync target; CopySync app target].
Proof.
  intros Hq H.
  assert (Hex : Fs.exists_ app (Fs.remove target (files s)) = false);
    [| destruct (copyApp_missing env Hq app target s Hex) as (s' & -> & Hf & Ht);
       repeat split; assumption].
  apply exists_false_iff. intros k data L. rewrite remove_lookup in L.
  destruct (Fs.within target k) eqn:Wt; [discriminate |].
  destruct H as [Hex | Hin].
  - exact (proj1 (exists_false_iff app (files s)) Hex k data L).
  - destruct (Fs.within app k) eqn:Wa; [| reflexivity].
    rewrite (within_trans target app k Hin Wa) in Wt. discriminate.
Qed.


(** ** The manifest of the copy *)

Lemma readJSONSync_cases path s :
  readJSONSync path s =
  (match files s !! path with
   | Some (JsonText doc) => Return doc
   | Some (Bytes _) => Throw (Error "SyntaxError")
   | None => Throw (SystemError "ENOENT" path)
   end, (log (ReadJSONSync path) s).2).
Proof.
  unfold readJSONSync, parse_file, bind, get_files. cbn [log fst snd files].
  destruct (files s !! path) as [[b | doc] |]; reflexivity.
Qed.

Lemma get_prop_state o key s : (get_prop o key s).2 = s.
Proof. destruct o; reflexivity. Qed.

Lemma set_prop_state o key v s : (set_prop o key v s).2 = s.
Proof. destruct o; reflexivity. Qed.

(** What [adaptApp] does to the files, as a function of the two manifests. *)
Lemma adaptApp_files env target s :
  quiet env ->
  exists r s', adaptApp env target s = (r, s') /\
    ((r = Return tt /\ files s' = files s /\
      exists root, files s !! "package.json" = Some (JsonText root) /\
        forall st, exists v, get_prop root "resolutions" st = (Return v, st) /\
                             Json.truthy v = false) \/
     (exists e, r = Throw e /\ files s' = files s) \/
     (r = Return tt /\
      exists root v copy merged,
        files s !! "package.json" = Some (JsonText root) /\
        (forall st, get_prop root "resolutions" st = (Return v, st)) /\
        Json.truthy v = true /\
        files s !! (target +:+ "package.json") = Some (JsonText copy) /\
        (forall st, exists a,
           get_prop copy "resolutions" st = (Return a, st) /\
           set_prop copy "resolutions" (JObj (Json.spread2 a v)) st = (Return merged, st)) /\
        files s' = <[target +:+ "package.json" := JsonText merged]> (files s))).
Proof.
  intros Hq. unfold adaptApp. rewrite bind_eq, await_quiet by exact Hq.
  rewrite readJSONSync_cases. cbn [fst snd].
  destruct (files s !! "package.json") as [[b | root] |] eqn:Hroot.
  1, 3: do 2 eexists; split; [reflexivity |]; right; left; eexists; split; reflexivity.
  rewrite bind_eq.
  destruct root as [| b | n | str | items | props]; cbn [get_prop throw ret].
  1: do 2 eexists; split; [reflexivity |]; right; left; eexists; split; reflexivity.
  1-4: do 2 eexists; split; [reflexivity |]; left; split; [reflexivity |];
       split; [reflexivity |]; eexists; split; [reflexivity |];
       intros st; exists undefined; split; reflexivity.
  destruct (Json.truthy (props !! "resolutions")) eqn:Htruthy.
  2: { do 2 eexists; split; [reflexivity |]; left; split; [reflexivity |].
       split; [reflexivity |]. eexists; split; [reflexivity |].
       intros st. eexists. split; [reflexivity | exact Htruthy]. }
  rewrite bind_eq, await_quiet by exact Hq.
  rewrite readJSONSync_cases. cbn [fst snd log next_turn files].
  destruct (files s !! (target +:+ "package.json")) as [[b | copy] |] eqn:Hcopy.
  1, 3: do 2 eexists; split; [reflexivity |]; right; left; eexists; split; reflexivity.
  rewrite bind_eq.
  destruct copy as [| b | n | str | items | cprops]; cbn [get_prop set_prop throw ret bind fst snd].
  1-4: do 2 eexists; split; [reflexivity |]; right; left; eexists; split; reflexivity.
  - rewrite await_quiet by exact Hq. do 2 eexists; split; [reflexivity |]. right; right.
    split; [reflexivity |]. exists (JObj props), (props !! "resolutions"), (JArr items), (JArr items).
    repeat split; try assumption; try reflexivity.
    intros st. exists undefined. split; reflexivity.
  - rewrite await_quiet by exact Hq. do 2 eexists; split; [reflexivity |]. right; right.
    split; [reflexivity |]. exists (JObj props), (props !! "resolutions"), (JObj cprops).
    eexists. repeat split; try assumption; try reflexivity.
    intros st. eexists. split; reflexivity.
Qed.

Lemma adaptApp_skips env target s root :
  quiet env ->
  files s !! "package.json" = Some (JsonText root) ->
  (forall st, exists v, get_prop root "resolutions" st = (Return v, st) /\
                        Json.truthy v = false) ->
  exists s', adaptApp env target s = (Return tt, s') /\ files s' = files s.
Proof.
  intros Hq Hroot Hres. unfold adaptApp. rewrite bind_eq, await_quiet by exact Hq.
  rewrite readJSONSync_cases, Hroot. cbn [fst snd]. rewrite bind_eq.
  destruct (Hres (next_turn (log (ReadJSONSync "package.json") s).2)) as (v & -> & ->).
  eexists. split; reflexivity.
Qed.

Lemma adaptApp_writes env target s root v copy merged :
  quiet env ->
  files s !! "package.json" = Some (JsonText root) ->
  (forall st, get_prop root "resolutions" st = (Return v, st)) ->
  Json.truthy v = true ->
  files s !! (target +:+ "package.json") = Some (JsonText copy) ->
  (forall st, exists a,
     get_prop copy "resolutions" st = (Return a, st) /\
     set_prop copy "resolutions" (JObj (Json.spread2 a v)) st = (Return merged, st)) ->
  exists s', adaptApp env target s = (Return tt, s') /\
    files s' = <[target +:+ "package.json" := JsonText merged]> (files s).
Proof.
  intros Hq Hroot Hres Htruthy Hcopy Hmerge.
  unfold adaptApp. rewrite bind_eq, await_quiet by exact Hq.
  rewrite readJSONSync_cases, Hroot. cbn [fst snd]. rewrite bind_eq, Hres, Htruthy.
  rewrite bind_eq, await_quiet by exact Hq.
  rewrite readJSONSync_cases. cbn [fst snd log next_turn files]. rewrite Hcopy.
  rewrite bind_eq.
  match goal with |- context [get_prop copy "resolutions" ?st] =>
    destruct (Hmerge st) as (a & -> & Hset) end.
  rewrite bind_eq, Hset, await_quiet by exact Hq.
  eexists. split; reflexivity.
Qed.

Lemma spread2_again a v :
  Json.spread2 (Some (JObj (Json.spread2 a v))) v = Json.spread2 a v.
Proof.
  unfold Json.spread2. cbn [Json.own_props].
  rewrite (assoc_L (∪)), (idemp_L (∪)). reflexivity.
Qed.

Lemma length_append p a : String.length (p +:+ a) = String.length p + String.length a.
Proof. induction p as [| c p IH]; simpl; [reflexivity | rewrite IH; reflexivity]. Qed.

Lemma adaptApp_cases env target s r s' :
  quiet env ->
  adaptApp env target s = (r, s') ->
  (files s' = files s /\
   exists evs, trace s' = trace s ++ evs /\ Forall (fun ev => ~ is_write ev) evs) \/
  (r = Return tt /\
   exists doc, files s' = <[target +:+ "package.json" := JsonText doc]> (files s)).
Proof.
  intros Hq E. unfold adaptApp in E. rewrite bind_eq, await_quiet in E by exact Hq.
  rewrite readJSONSync_cases in E. cbn [fst snd] in E.
  assert (One : forall st : State, st = next_turn (log (ReadJSONSync "package.json") s).2 ->
    files st = files s /\
    exists evs, trace st = trace s ++ evs /\ Forall (fun ev => ~ is_write ev) evs).
  { intros st ->. split; [reflexivity |]. exists [ReadJSONSync "package.json"].
    split; [reflexivity |]. apply Forall_singleton; simpl; tauto. }
  assert (Two : forall st : State,
    st = next_turn (log (ReadJSONSync (target +:+ "package.json"))
                      (next_turn (log (ReadJSONSync "package.json") s).2)).2 ->
    files st = files s /\
    exists evs, trace st = trace s ++ evs /\ Forall (fun ev => ~ is_write ev) evs).
  { intros st ->. split; [reflexivity |].
    exists [ReadJSONSync "package.json"; ReadJSONSync (target +:+ "package.json")].
    split; [simpl; rewrite <- app_assoc; reflexivity |].
    repeat constructor; simpl; tauto. }
  destruct (files s !! "package.json") as [[b | root] |] eqn:Hroot.
  1, 3: inversion E; subst; left; apply One; reflexivity.
  rewrite bind_eq in E.
  pose proof (get_prop_state root "resolutions"
                (next_turn (log (ReadJSONSync "package.json") s).2)) as G.
  destruct (get_prop root "resolutions" _) as [[resolutions | e] s1];
    cbn [snd] in G; subst s1; [| inversion E; subst; left; apply One; reflexivity].
  destruct (Json.truthy resolutions);
    [| inversion E; subst; left; apply One; reflexivity].
  rewrite bind_eq, await_quiet in E by exact Hq.
  rewrite readJSONSync_cases in E. cbn [fst snd log next_turn files] in E.
  destruct (files s !! (target +:+ "package.json")) as [[b | copy] |] eqn:Hcopy.
  1, 3: inversion E; subst; left; apply Two; reflexivity.
  rewrite bind_eq in E.
  match type of E with context [get_prop copy "resolutions" ?st] =>
    pose proof (get_prop_state copy "resolutions" st) as G;
    destruct (get_prop copy "resolutions" st) as [[appResolutions | e] s1];
    cbn [snd] in G; subst s1; [| inversion E; subst; left; apply Two; reflexivity]
  end.
  rewrite bind_eq in E.
  match type of E with context [set_prop copy "resolutions" ?v ?st] =>
    pose proof (set_prop_state copy "resolutions" v st) as G;
    destruct (set_prop copy "resolutions" v st) as [[merged | e] s1];
    cbn [snd] in G; subst s1; [| inversion E; subst; left; apply Two; reflexivity]
  end.
  rewrite await_quiet in E by exact Hq. inversion E; subst.
  right. split; [reflexivity |]. exists merged. reflexivity.
Qed.

(** X13. No interrupt being handled: [adaptApp] changes no file but the
    manifest of the copy, and when it throws (a manifest that is missing,
    is no JSON or is [null], or a copy that cannot take the property) it
    has written nothing: every file is as before. *)
Theorem adaptApp_touches_only_the_copy (env : Env) (target : string) (s : State) :
  quiet env ->
  (forall p, p <> target +:+ "package.json" ->
             files (adaptApp env target s).2 !! p = files s !! p) /\
  (forall e, (adaptApp env target s).1 = Throw e ->
             files (adaptApp env target s).2 = files s /\
             exists evs, trace (adaptApp env target s).2 = trace s ++ evs /\
                         Forall (fun ev => ~ is_write ev) evs).
Proof.
  intros Hq. destruct (adaptApp env target s) as [r s'] eqn:E. cbn [fst snd].
  destruct (adaptApp_cases env target s r s' Hq E) as [[Hf Ht] | [Hr (doc & Hf)]].
  - split; [intros p _; rewrite Hf; reflexivity | intros e _; split; assumption].
  - split.
    + intros p Hp. rewrite Hf. apply lookup_insert_ne. congruence.
    + intros e He. congruence.
Qed.

(** X14. No interrupt being handled and the output path ending in a slash:
    when [adaptApp] has returned, running it again returns as well and
    leaves every file as the first run left it; the merge of the
    resolutions is not repeated on top of itself. *)
Theorem adaptApp_twice_is_once (env : Env) (target : string) (s : State) :
  quiet env ->
  Js.endsWith target "/" = true ->
  (adaptApp env target s).1 = Return tt ->
  (adaptApp env target (adaptApp env target s).2).1 = Return tt /\
  files (adaptApp env target (adaptApp env target s).2).2 =
    files (adaptApp env target s).2.
Proof.
  intros Hq Htarget Hret.
  assert (Hne : target +:+ "package.json" <> "package.json").
  { destruct target as [| c t]; [discriminate |]. intros H.
    apply (f_equal String.length) in H. rewrite length_append in H.
    simpl in H. lia. }
  destruct (adaptApp_files env target s Hq) as (r & s' & E & H).
  rewrite E in *. cbn [fst snd] in *. subst r.
  destruct H as [(_ & Hf & root & Hroot & Hres)
                | [(e & He & _)
                  | (_ & root & v & copy & merged & Hroot & Hres & Ht & Hcopy & Hm & Hf)]].
  - rewrite <- Hf in Hroot.
    destruct (adaptApp_skips env target s' root Hq Hroot Hres) as (s'' & -> & Hf').
    split; [reflexivity | exact Hf'].
  - discriminate.
  - assert (Hroot' : files s' !! "package.json" = Some (JsonText root)).
    { rewrite Hf, lookup_insert_ne by exact Hne. exact Hroot. }
    assert (Hcopy' : files s' !! (target +:+ "package.json") = Some (JsonText merged)).
    { rewrite Hf. apply lookup_insert_eq. }
    destruct (adaptApp_writes env target s' root v merged merged Hq Hroot' Hres Ht Hcopy')
      as (s'' & -> & Hf').
    + intros st. destruct (Hm st) as (a & Hget & Hset).
      destruct copy as [| b | n | str | items | cprops];
        cbn [get_prop set_prop throw ret] in Hget, Hset; try discriminate.
      * inversion Hget; inversion Hset; subst. exists undefined. split; reflexivity.
      * inversion Hget; inversion Hset; subst.
        exists (Some (JObj (Json.spread2 (cprops !! "resolutions") v))).
        cbn [get_prop set_prop ret]. rewrite lookup_insert_eq. split; [reflexivity |].
        rewrite spread2_again, insert_insert_eq. reflexivity.
    + cbn [fst snd]. split; [reflexivity |]. rewrite Hf', Hf. apply insert_insert_eq.
Qed.

(** ** The order of the steps *)

Lemma cleanup_in_step k ev : is_cleanup ev -> in_step k ev.
Proof. destruct ev; simpl; try contradiction; intros _ i H; discriminate. Qed.

Lemma in_step_in_order k evs : Forall (in_step k) evs -> in_order evs.
Proof.
  induction 1 as [| ev evs Hev Hevs IH]; simpl; [exact I |]. split; [| exact IH].
  intros i Hi. eapply Forall_impl; [exact Hevs |]. intros ev' Hev' j Hj.
  rewrite (Hev i Hi), (Hev' j Hj). reflexivity.
Qed.

Lemma up_to_app k tr evs : up_to k tr -> Forall (in_step k) evs -> up_to k (tr ++ evs).
Proof.
  intros [Ho Hk] Hevs. split.
  - induction tr as [| ev tr IH]; simpl in *; [eapply in_step_in_order, Hevs |].
    destruct Ho as [Hhead Ho]. apply Forall_cons in Hk as [Hev Hk].
    split; [| apply IH; assumption].
    intros i Hi. apply Forall_app; split; [apply Hhead, Hi |].
    eapply Forall_impl; [exact Hevs |]. intros ev' Hev' j Hj.
    rewrite (Hev' j Hj). apply Hev, Hi.
  - apply Forall_app; split; [exact Hk |].
    eapply Forall_impl; [exact Hevs |]. intros ev Hev i Hi. rewrite (Hev i Hi). reflexivity.
Qed.

Lemma in_order_cleanup tr cl : in_order tr -> Forall is_cleanup cl -> in_order (tr ++ cl).
Proof.
  intros Ho Hcl. induction tr as [| ev tr IH]; simpl in *.
  - apply (in_step_in_order 0). eapply Forall_impl; [exact Hcl | apply cleanup_in_step].
  - destruct Ho as [Hhead Ho]. split; [| apply IH, Ho].
    intros i Hi. apply Forall_app; split; [apply Hhead, Hi |].
    eapply Forall_impl; [exact Hcl |]. intros ev' Hev' j Hj.
    destruct ev'; simpl in Hev', Hj; try contradiction; discriminate.
Qed.

Lemma up_to_mono k k' tr : k <= k' -> up_to k tr -> up_to k' tr.
Proof.
  intros Hle [Ho Hk]. split; [exact Ho |].
  eapply Forall_impl; [exact Hk |]. intros ev Hev i Hi. specialize (Hev i Hi). lia.
Qed.

Lemma in_order_split pre ev post i :
  in_order (pre ++ ev :: post) -> step_of ev = Some i ->
  Forall (fun ev' => forall j, step_of ev' = Some j -> i <= j) post.
Proof.
  induction pre as [| ev0 pre IH]; simpl; intros [Hhead Ho] Hi.
  - apply Hhead, Hi.
  - apply IH; assumption.
Qed.

Section Order.

Variable env : Env.

Lemma suspend_in_step k s :
  anything (disposables s) -> ext (Forall (in_step k)) s (suspend env s).
Proof.
  intros _. eapply ext_mono; [| apply suspend_ext]. intros evs H.
  eapply Forall_impl; [exact H | apply cleanup_in_step].
Qed.

Lemma runs_bind {A B} k k' k'' (m : M A) (f : A -> M B) :
  runs k k' m -> (forall a, runs k' k'' (f a)) -> runs k k'' (bind m f).
Proof.
  intros Hm Hf s H. unfold bind. specialize (Hm s H).
  destruct (m s) as [[a | e] s']; [apply Hf, Hm | exact Hm].
Qed.

Lemma runs_pre {A} k0 k k' (m : M A) : k0 <= k -> runs k k' m -> runs k0 k' m.
Proof. intros Hle Hm s H. apply Hm. eapply up_to_mono; eassumption. Qed.

Lemma runs_push k d : runs k k (push d).
Proof. intros s H. exact H. Qed.

(** A function of step [k], awaited. *)
Lemma runs_step {A} k (m : M A) :
  acts anything (Forall (in_step k)) m -> runs k k (await env m).
Proof.
  intros Hm. apply (holds_await env (up_to k) in_order).
  - intros tr cl H Hcl. apply up_to_app; [exact H |].
    eapply Forall_impl; [exact Hcl | apply cleanup_in_step].
  - apply in_order_cleanup.
  - apply (holds_acts (up_to k) in_order (fun tr H => proj1 H) (in_step k)).
    + apply up_to_app.
    + exact Hm.
Qed.

Ltac in_step_tac :=
  intros; apply Forall_singleton; intros step Hstep; simpl in Hstep; inversion Hstep;
  reflexivity.

Variable args : Args.

Lemma runs_later_steps : runs 2 6 (later_steps env args).
Proof.
  unfold later_steps.
  apply runs_bind with 2.
  { apply runs_step, acts_publishExtensions; [exact _ | apply suspend_in_step |].
    intros x _. split; in_step_tac. }
  intros _. apply runs_pre with 3; [lia |]. apply runs_bind with 3.
  { apply runs_step, acts_copyApp; [exact _ | apply suspend_in_step | | |]; in_step_tac. }
  intros _. apply runs_pre with 4; [lia |]. apply runs_bind with 4.
  { apply runs_step, acts_adaptApp; [exact _ | apply suspend_in_step | | |]; in_step_tac. }
  intros _. apply runs_pre with 5; [lia |]. apply runs_bind with 5.
  { apply runs_step, acts_buildApp; [exact _ | apply suspend_in_step |]; in_step_tac. }
  intros _. apply runs_pre with 6; [lia |].
  apply runs_step, acts_minifyApp; [exact _ | apply suspend_in_step | |]; in_step_tac.
Qed.

Lemma runs_steps : runs 0 6 (steps env args).
Proof.
  rewrite steps_eq. apply runs_bind with 0.
  { apply runs_step, acts_startVerdaccio; [exact _ | apply suspend_in_step | |]; in_step_tac. }
  intros d. unfold after_verdaccio.
  apply runs_bind with 0; [apply runs_push |].
  intros _. apply runs_pre with 1; [lia |]. apply runs_bind with 1.
  { apply runs_step, acts_createNpmrcFile; [exact _ |].
    intros []; try exact I; in_step_tac. }
  intros d'. apply runs_bind with 1; [apply runs_push |].
  intros _. apply runs_pre with 2; [lia |]. apply runs_later_steps.
Qed.

Lemma script_in_order fs : in_order (trace (script env args fs).2).
Proof.
  rewrite script_eq, execute_eq. cbn [fst snd].
  set (s0 := (set_disposables [] (initial fs)).2).
  assert (Hsteps : in_order (trace (steps env args s0).2)).
  { pose proof (runs_steps s0) as H.
    destruct (steps env args s0) as [[[] | e] s2]; cbn [snd].
    - apply H. split; [exact I | constructor].
    - apply H. split; [exact I | constructor]. }
  set (s2 := (steps env args s0).2) in *.
  destruct (suspend_ext env (for_of (disposables s2) invoke s2).2) as [_ (cl & -> & Hcl)].
  destruct (invoke_all (disposables s2) s2) as (_ & -> & _).
  apply in_order_cleanup; [| exact Hcl].
  apply in_order_cleanup; [exact Hsteps | apply Forall_cleanup_disposals].
Qed.

End Order.

(** X15. In every run, whatever fails and whatever interrupts arrive, the
    calls come in the order of the functions in [execute]: after a call of
    [createNpmrcFile] there is no call of [startVerdaccio], after a
    publication none of the two, and so on through [copyApp], [adaptApp],
    [buildApp] and [minifyApp]. *)
Theorem calls_in_the_order_of_execute (env : Env) (args : Args) (fs : gmap string FileData)
    (pre post : list Event) (ev ev' : Event) (i j : nat) :
  trace (script env args fs).2 = pre ++ ev :: post ->
  ev' ∈ post ->
  step_of ev = Some i -> step_of ev' = Some j ->
  i <= j.
Proof.
  intros Hsplit Hin Hi Hj. pose proof (script_in_order env args fs) as Ho.
  rewrite Hsplit in Ho. pose proof (in_order_split pre ev post i Ho Hi) as Hpost.
  rewrite Forall_forall in Hpost. exact (Hpost ev' Hin j Hj).
Qed.

(** ** The two calls of the minification *)

Lemma executeProcess_awaited (env : Env) command argv target debug s :
  exists cl,
    Forall is_cleanup cl /\
    trace (await env (executeProcess env command argv target debug) s).2 =
      trace s ++ SpawnSync command argv (stdio_of debug) target :: cl /\
    (await env (executeProcess env command argv target debug) s).1 =
      (executeProcess env command argv target debug s).1.
Proof.
  rewrite await_eq. cbn [fst snd].
  destruct (executeProcess_trace env command argv target debug s) as (cl & Ht & _ & Hcl).
  destruct (suspend_ext env (executeProcess env command argv target debug s).2)
    as [_ (cl' & Ht' & Hcl')].
  exists (cl ++ cl'). split; [apply Forall_app; split; assumption |].
  split; [| reflexivity]. rewrite Ht', Ht, <- app_assoc. reflexivity.
Qed.

(** X16. [minifyApp] calls [yarn autoclean --init] in the output directory
    and, unless that call was ended by a signal or could not be launched,
    [yarn autoclean --force] after it; it returns when neither call was fatal,
    whatever their exit statuses. In between there are only interrupts and
    disposals. *)
Theorem minifyApp_forces_after_init (env : Env) (target : string) (debug : bool)
    (s : State) :
  let init := [str "autoclean"; str "--init"] in
  let force := [str "autoclean"; str "--force"] in
  let run := minifyApp env target debug s in
  exists cl1 cl2,
    Forall is_cleanup cl1 /\ Forall is_cleanup cl2 /\
    if fatal (spawnSync_result env "yarn" init target)
    then trace run.2 = trace s ++ SpawnSync "yarn" init (stdio_of debug) target :: cl1 /\
         exists e, run.1 = Throw e
    else trace run.2 =
           trace s ++ SpawnSync "yarn" init (stdio_of debug) target :: cl1 ++
           SpawnSync "yarn" force (stdio_of debug) target :: cl2 /\
         (run.1 = Return tt <-> fatal (spawnSync_result env "yarn" force target) = false).
Proof.
  cbv zeta. unfold minifyApp. rewrite bind_eq.
  destruct (executeProcess_awaited env "yarn" [str "autoclean"; str "--init"] target debug s)
    as (cl1 & Hcl1 & Ht1 & Hr1).
  rewrite executeProcess_result in Hr1. cbv zeta in Hr1. unfold fatal.
  destruct (await env (executeProcess env "yarn" [str "autoclean"; str "--init"] target debug) s)
    as [r1 s1]. cbn [fst snd] in *.
  destruct (executeProcess_awaited env "yarn" [str "autoclean"; str "--force"] target debug s1)
    as (cl2 & Hcl2 & Ht2 & Hr2).
  rewrite executeProcess_result in Hr2. cbv zeta in Hr2.
  exists cl1, cl2. split; [exact Hcl1 |]. split; [exact Hcl2 |].
  destruct (by_signal (spawnSync_result env "yarn" [str "autoclean"; str "--init"] target)).
  - subst r1. cbn [orb fst snd]. split; [exact Ht1 | eauto].
  - cbn [orb]. destruct (error (spawnSync_result env "yarn" [str "autoclean"; str "--init"] target)).
    + subst r1. cbn [fst snd]. split; [exact Ht1 | eauto].
    + subst r1. rewrite Ht2, Ht1, <- app_assoc. split; [reflexivity |].
      rewrite Hr2.
      destruct (by_signal (spawnSync_result env "yarn" [str "autoclean"; str "--force"] target)).
      * cbn [orb]. split; discriminate.
      * cbn [orb].
        destruct (error (spawnSync_result env "yarn" [str "autoclean"; str "--force"] target));
          split; try discriminate; reflexivity.
Qed.

(** ** The further properties on the small project *)

Lemma missing_manifest_stops_publishing_witness :
  (exists e, (publishExtensions demo_env "http://localhost:4873" ["theia-extensions/*"] []
                false (initial without_b_fs)).1 = Throw e) /\
  exists evs,
    trace (publishExtensions demo_env "http://localhost:4873" ["theia-extensions/*"] []
             false (initial without_b_fs)).2 = trace (initial without_b_fs) ++ evs /\
    "/work/theia-extensions/b" ∉ published evs.
Proof.
  apply (missing_manifest_stops_publishing demo_env "http://localhost:4873"
           ["theia-extensions/*"] [] false "/work/theia-extensions/b" (initial without_b_fs)).
  - intros n. reflexivity.
  - apply (bool_decide_unpack _). vm_compute. reflexivity.
  - vm_compute. reflexivity.
Defined.


Lemma registry_left_running_after_failed_wait_witness :
  (script unready_env default_args demo_fs).1 = Throw (Foreign "wait-port") /\
  running (script unready_env default_args demo_fs).2 = [0] /\
  disposables (script unready_env default_args demo_fs).2 = [] /\
  disposed (trace (script unready_env default_args demo_fs).2) = [] /\
  files (script unready_env default_args demo_fs).2 = demo_fs.
Proof.
  apply (registry_left_running_after_failed_wait unready_env default_args demo_fs
           (Foreign "wait-port")).
  reflexivity.
Defined.

(** The app inside the output directory. *)
Lemma copyApp_without_app_witness :
  (copyApp demo_env "applications/browser" "applications/" (initial demo_fs)).1 =
    Throw (SystemError "ENOENT" "applications/browser") /\
  files (copyApp demo_env "applications/browser" "applications/" (initial demo_fs)).2 =
    Fs.remove "applications/" (files (initial demo_fs)) /\
  trace (copyApp demo_env "applications/browser" "applications/" (initial demo_fs)).2 =
    trace (initial demo_fs) ++
    [RemoveSync "applications/"; CopySync "applications/browser" "applications/"].
Proof.
  apply (copyApp_without_app demo_env "applications/browser" "applications/"
           (initial demo_fs)).
  - intros n. reflexivity.
  - right. reflexivity.
Defined.


Lemma adaptApp_touches_only_the_copy_witness :
  (forall p, p <> "../target/" +:+ "package.json" ->
             files (adaptApp demo_env "../target/" (initial copied_fs)).2 !! p =
             files (initial copied_fs) !! p) /\
  (forall e, (adaptApp demo_env "../target/" (initial copied_fs)).1 = Throw e ->
             files (adaptApp demo_env "../target/" (initial copied_fs)).2 =
               files (initial copied_fs) /\
             exists evs,
               trace (adaptApp demo_env "../target/" (initial copied_fs)).2 =
                 trace (initial copied_fs) ++ evs /\
               Forall (fun ev => ~ is_write ev) evs).
Proof.
  apply (adaptApp_touches_only_the_copy demo_env "../target/" (initial copied_fs)).
  intros n. reflexivity.
Defined.

Lemma adaptApp_twice_is_once_witness :
  (adaptApp demo_env "../target/" (adaptApp demo_env "../target/" (initial copied_fs)).2).1
    = Return tt /\
  files (adaptApp demo_env "../target/"
           (adaptApp demo_env "../target/" (initial copied_fs)).2).2 =
    files (adaptApp demo_env "../target/" (initial copied_fs)).2.
Proof.
  apply (adaptApp_twice_is_once demo_env "../target/" (initial copied_fs)).
  - intros n. reflexivity.
  - reflexivity.
  - vm_compute. reflexivity.
Defined.

(** The publication of the second extension, step 2, and the removal of the
    output directory after it, step 3. *)
Lemma calls_in_the_order_of_execute_witness : 2 <= 3.
Proof.
  apply (calls_in_the_order_of_execute demo_env default_args demo_fs
           (firstn 7 (trace (script demo_env default_args demo_fs).2))
           (RemoveSync "../target/" ::
            skipn 9 (trace (script demo_env default_args demo_fs).2))
           (SpawnSync "yarn" (publish_argv "2.0.0") None "/work/theia-extensions/b")
           (RemoveSync "../target/")).
  - vm_compute. reflexivity.
  - left.
  - reflexivity.
  - reflexivity.
Defined.

(** ** The arguments of the publications *)

Section PublishCalls.

Variable env : Env.
Hypothesis Hquiet : quiet env.

Lemma executeProcess_quiet_trace command argv target debug s :
  trace (executeProcess env command argv target debug s).2 =
  trace s ++ [SpawnSync command argv (stdio_of debug) target].
Proof.
  unfold executeProcess. rewrite bind_eq, (await_quiet env) by exact Hquiet.
  cbn [spawnSync bind log ret fst snd].
  destruct (match signal _ with Some name => Js.truthy_string name | None => false end);
    [reflexivity |].
  destruct (error _); reflexivity.
Qed.

Lemma require_eq path s :
  require path s =
  (match files s !! path with
   | Some (JsonText doc) => Return doc
   | Some (Bytes _) => Throw (Error "SyntaxError")
   | None => Throw (SystemError "ENOENT" path)
   end, (log (Require path) s).2).
Proof.
  unfold require, parse_file, bind, get_files. cbn [log fst snd files].
  destruct (files s !! path) as [[b | doc] |]; reflexivity.
Qed.

Lemma publish_quiet_calls registry debug p s :
  exists evs,
    trace (publish env registry debug p s).2 = trace s ++ evs /\
    Forall (publish_call env registry debug (files s)) evs /\
    Forall (fun ev => match ev with SpawnSync _ _ _ cwd => cwd = p | _ => True end) evs.
Proof.
  unfold publish. rewrite bind_eq, require_eq.
  destruct (files s !! (p +:+ "/package.json")) as [[b | doc] |] eqn:L.
  1, 3: exists [Require (p +:+ "/package.json")]; split; [reflexivity |];
        split; repeat constructor.
  rewrite bind_eq.
  destruct doc as [| b | n | str | items | props]; cbn [get_prop throw ret bind fst snd].
  1: exists [Require (p +:+ "/package.json")]; split; [reflexivity |];
     split; repeat constructor.
  all: rewrite (await_quiet env) by exact Hquiet; cbn [snd next_turn trace];
       rewrite executeProcess_quiet_trace; cbn [log snd trace]; rewrite <- app_assoc;
       eexists; (split; [reflexivity |]); split;
       (constructor; [exact I |]); (constructor; [| constructor]); try reflexivity;
       (split; [reflexivity |]); (split; [reflexivity |]);
       do 2 eexists; (split; [exact L |]); split; [intros st; reflexivity | reflexivity].
Qed.

Lemma for_of_publish_quiet_calls registry debug l : forall s,
  exists evs,
    trace (for_of l (publish env registry debug) s).2 = trace s ++ evs /\
    Forall (publish_call env registry debug (files s)) evs /\
    Forall (fun ev => match ev with SpawnSync _ _ _ cwd => cwd ∈ l | _ => True end) evs.
Proof.
  induction l as [| p l IH]; intros s.
  - exists []. split; [symmetry; apply app_nil_r |]. split; constructor.
  - cbn [for_of]. rewrite bind_eq.
    destruct (publish_quiet_calls registry debug p s) as (evs1 & Ht1 & Hc1 & Hp1).
    pose proof (publish_quiet_files env Hquiet registry debug p s) as Hf.
    assert (Hp1' : Forall (fun ev => match ev with
                                     | SpawnSync _ _ _ cwd => cwd ∈ p :: l
                                     | _ => True
                                     end) evs1).
    { eapply Forall_impl; [exact Hp1 |]. intros [] H; try exact I. subst. left. }
    destruct (publish env registry debug p s) as [[[] | e] s1]; cbn [fst snd] in *.
    + destruct (IH s1) as (evs2 & Ht2 & Hc2 & Hp2). rewrite Hf in Hc2.
      exists (evs1 ++ evs2). split; [rewrite Ht2, Ht1, app_assoc; reflexivity |].
      split; apply Forall_app; split; try assumption.
      eapply Forall_impl; [exact Hp2 |]. intros [] H; try exact I. right. exact H.
    + exists evs1. repeat split; assumption.
Qed.

End PublishCalls.

(** X17. No interrupt being handled (and the files changed by the script
    only): every [spawnSync] call of [publishExtensions] is [yarn publish]
    in one of the matched directories, for the registry given, with
    [--new-version] followed by what the manifest of that directory has
    under [version], which is [undefined] for a manifest without that
    property. *)
Theorem publish_passes_manifest_version (env : Env) (registry : string)
    (includes ignores : list string) (debug : bool) (s : State) (evs : list Event)
    (command : string) (argv : list value) (stdio : option string) (cwd : string) :
  quiet env ->
  trace (publishExtensions env registry includes ignores debug s).2 = trace s ++ evs ->
  SpawnSync command argv stdio cwd ∈ evs ->
  cwd ∈ uniquePaths env includes ignores /\
  command = "yarn" /\ stdio = stdio_of debug /\
  exists doc version,
    files s !! (cwd +:+ "/package.json") = Some (JsonText doc) /\
    (forall st, get_prop doc "version" st = (Return version, st)) /\
    argv = [str "publish"; str "--registry"; str registry; str "--new-version"; version].
Proof.
  intros Hq Ht Hin. unfold publishExtensions in Ht.
  destruct (for_of_publish_quiet_calls env Hq registry debug
              (uniquePaths env includes ignores) s) as (evs' & Ht' & Hc & Hp).
  rewrite Ht' in Ht. apply app_inv_head in Ht. subst evs'.
  rewrite Forall_forall in Hc, Hp.
  split; [exact (Hp _ Hin) | exact (Hc _ Hin)].
Qed.

Lemma publish_passes_manifest_version_witness :
  "/work/theia-extensions/b" ∈ uniquePaths demo_env ["theia-extensions/*"] [] /\
  "yarn" = "yarn" /\ None = stdio_of false /\
  exists doc version,
    files (initial demo_fs) !! ("/work/theia-extensions/b" +:+ "/package.json")
      = Some (JsonText doc) /\
    (forall st, get_prop doc "version" st = (Return version, st)) /\
    publish_argv "2.0.0" =
      [str "publish"; str "--registry"; str "http://localhost:4873"; str "--new-version";
       version].
Proof.
  apply (publish_passes_manifest_version demo_env "http://localhost:4873"
           ["theia-extensions/*"] [] false (initial demo_fs)
           [Require "/work/theia-extensions/a/package.json";
            SpawnSync "yarn" (publish_argv "1.0.0") None "/work/theia-extensions/a";
            Require "/work/theia-extensions/b/package.json";
            SpawnSync "yarn" (publish_argv "2.0.0") None "/work/theia-extensions/b"]).
  - intros n. reflexivity.
  - vm_compute. reflexivity.
  - right. right. right. left.
Defined.
